(** * tools/generate_instance_type_catalog.py: a shallow embedding

    The script fetches EC2 instance-type records page by page, makes every
    record JSON-safe ([json_safe]), indexes the records by their
    ["InstanceType"] field, and writes a sorted JSON document.

    Python values are modelled by the inductive [value]; exceptions by an
    error monad ([result]); the provider, the clock, the error stream and
    the file system by explicit inputs and output traces of [main].

    The library calls the script relies on (str, datetime, decimal, json)
    are modelled after CPython's pure-Python implementations
    (Lib/datetime.py, Lib/_pydecimal.py, Lib/json/encoder.py). *)

From Stdlib Require Import ZArith NArith List String Ascii Bool Lia.
From Stdlib Require Import Permutation Sorting.Sorted.
From Stdlib Require Import Floats.SpecFloat.
Import ListNotations.
Local Open Scope Z_scope.

Set Implicit Arguments.

(* ===================================================================== *)
(** * Exceptions *)
(* ===================================================================== *)

(** The exception classes that the modelled code can raise.  None of them
    is a [BotoCoreError] or a [ClientError], so [main] never catches one. *)
Inductive exn : Type :=
| InvalidOperation   (* decimal.InvalidOperation *)
| Overflow           (* decimal.Overflow *)
| OverflowError
| ValueError
| AttributeError
| TypeError
| KeyError.

Inductive result (A : Type) : Type :=
| Ok (a : A)
| Raise (e : exn).
Arguments Ok {A} a.
Arguments Raise {A} e.

Definition bind {A B : Type} (m : result A) (k : A -> result B) : result B :=
  match m with
  | Ok a => k a
  | Raise e => Raise e
  end.

Declare Scope py_scope.
Delimit Scope py_scope with py.
Notation "x <- m ;; k" := (bind m (fun x => k))
  (at level 61, m at next level, right associativity) : py_scope.
Local Open Scope py_scope.

(* ===================================================================== *)
(** * str *)
(* ===================================================================== *)

(** A Python [str] is a sequence of Unicode code points. *)
Definition pystr : Type := list N.

(** String literals of the source. *)
Definition lit (s : string) : pystr :=
  List.map N_of_ascii (list_ascii_of_string s).

(** [a < b], [a == b] on str: lexicographic on code points. *)
Fixpoint str_compare (a b : pystr) : comparison :=
  match a, b with
  | [], [] => Eq
  | [], _ :: _ => Lt
  | _ :: _, [] => Gt
  | x :: a', y :: b' =>
      match N.compare x y with
      | Eq => str_compare a' b'
      | c => c
      end
  end.

Definition str_eqb (a b : pystr) : bool :=
  match str_compare a b with Eq => true | _ => false end.

Definition str_leb (a b : pystr) : bool :=
  match str_compare a b with Gt => false | _ => true end.

Definition str_lt (a b : pystr) : Prop := str_compare a b = Lt.

(** [s.startswith(p)] *)
Fixpoint startswith (p s : pystr) : bool :=
  match p, s with
  | [], _ => true
  | _ :: _, [] => false
  | x :: p', y :: s' => N.eqb x y && startswith p' s'
  end.

(** [s.endswith(p)] *)
Definition endswith (p s : pystr) : bool :=
  startswith (rev p) (rev s).

(** [s.replace(old, new)] for a non-empty [old]: every occurrence of
    [old], found left to right without overlap, is replaced.  [skip]
    counts the characters of a matched occurrence still to be dropped. *)
Fixpoint replace_from (old new : pystr) (skip : nat) (s : pystr) : pystr :=
  match s with
  | [] => []
  | c :: s' =>
      match skip with
      | S k => replace_from old new k s'
      | O =>
          if startswith old s
          then new ++ replace_from old new (Nat.pred (List.length old)) s'
          else c :: replace_from old new O s'
      end
  end.

(** [s.replace(old, new)]; an empty [old] matches before every character
    and at the end. *)
Definition replace (old new s : pystr) : pystr :=
  match old with
  | [] => new ++ flat_map (fun c => c :: new) s
  | _ :: _ => replace_from old new O s
  end.

(** [sep.join(parts)] *)
Fixpoint join (sep : pystr) (parts : list pystr) : pystr :=
  match parts with
  | [] => []
  | [p] => p
  | p :: rest => p ++ sep ++ join sep rest
  end.

(** ** Decimal digits *)

(** The [w] low decimal digits of [n], most significant first. *)
Fixpoint low_digits (w : nat) (n : N) : pystr :=
  match w with
  | O => []
  | S k => low_digits k (n / 10)%N ++ [(48 + n mod 10)%N]
  end.

(** Number of decimal digits of [n]; 1 for 0, as in [len(str(n))]. *)
Fixpoint ndigits_fuel (fuel : nat) (n : N) : nat :=
  match fuel with
  | O => 1%nat
  | S f => if (n <? 10)%N then 1%nat else S (ndigits_fuel f (n / 10)%N)
  end.

Definition ndigits (n : N) : nat := ndigits_fuel (N.to_nat (N.size n)) n.

(** ["%0<w>d" % z]: at least [w] characters, zero-padded after the sign. *)
Definition fmt_d (w : nat) (z : Z) : pystr :=
  match z with
  | Zneg p => lit "-" ++ low_digits (Nat.max (Nat.pred w) (ndigits (Npos p))) (Npos p)
  | _ => low_digits (Nat.max w (ndigits (Z.to_N z))) (Z.to_N z)
  end.

(** [str(z)] for an int. *)
Definition str_of_int (z : Z) : pystr := fmt_d 1 z.

(** Reading a run of decimal digits back; [None] on any other character
    and on the empty string. *)
Fixpoint digits_value (acc : N) (s : pystr) : option N :=
  match s with
  | [] => Some acc
  | c :: s' =>
      if ((48 <=? c) && (c <=? 57))%N
      then digits_value (10 * acc + (c - 48))%N s'
      else None
  end.

Definition parse_digits (s : pystr) : option N :=
  match s with
  | [] => None
  | _ => digits_value 0%N s
  end.

(** ["{0:04x}".format(n)]: at least four lower-case hexadecimal digits. *)
Definition hex_char (d : N) : N :=
  if (d <? 10)%N then (48 + d)%N else (87 + d)%N.

Fixpoint low_hex (w : nat) (n : N) : pystr :=
  match w with
  | O => []
  | S k => low_hex k (n / 16)%N ++ [hex_char (n mod 16)%N]
  end.

Definition nhex (n : N) : nat := Nat.max 1 (Nat.div (N.to_nat (N.size n) + 3) 4).

Definition fmt_04x (n : N) : pystr := low_hex (Nat.max 4 (nhex n)) n.

(* ===================================================================== *)
(** * datetime *)
(* ===================================================================== *)

(** ** The proleptic Gregorian calendar of Lib/datetime.py *)

Definition _DAYS_IN_MONTH : list Z :=
  [-1; 31; 28; 31; 30; 31; 30; 31; 31; 30; 31; 30; 31].

Definition _DAYS_BEFORE_MONTH : list Z :=
  [-1; 0; 31; 59; 90; 120; 151; 181; 212; 243; 273; 304; 334].

Definition _is_leap (year : Z) : bool :=
  (year mod 4 =? 0) && (negb (year mod 100 =? 0) || (year mod 400 =? 0)).

Definition _days_before_year (year : Z) : Z :=
  let y := year - 1 in
  y * 365 + y / 4 - y / 100 + y / 400.

Definition _days_in_month (year month : Z) : Z :=
  if (month =? 2) && _is_leap year then 29
  else nth (Z.to_nat month) _DAYS_IN_MONTH 0.

Definition _days_before_month (year month : Z) : Z :=
  nth (Z.to_nat month) _DAYS_BEFORE_MONTH 0
  + (if (2 <? month) && _is_leap year then 1 else 0).

Definition _ymd2ord (year month day : Z) : Z :=
  _days_before_year year + _days_before_month year month + day.

Definition _DI400Y : Z := 146097.
Definition _DI100Y : Z := 36524.
Definition _DI4Y : Z := 1461.
Definition _MAXORDINAL : Z := 3652059.

Definition _ord2ymd (n0 : Z) : Z * Z * Z :=
  let n := n0 - 1 in
  let n400 := n / _DI400Y in
  let n := n mod _DI400Y in
  let year := n400 * 400 + 1 in
  let n100 := n / _DI100Y in
  let n := n mod _DI100Y in
  let n4 := n / _DI4Y in
  let n := n mod _DI4Y in
  let n1 := n / 365 in
  let n := n mod 365 in
  let year := year + n100 * 100 + n4 * 4 + n1 in
  if (n1 =? 4) || (n100 =? 4) then (year - 1, 12, 31)
  else
    let leapyear := (n1 =? 3) && (negb (n4 =? 24) || (n100 =? 3)) in
    let month := Z.shiftr (n + 50) 5 in
    let preceding :=
      nth (Z.to_nat month) _DAYS_BEFORE_MONTH 0
      + (if (2 <? month) && leapyear then 1 else 0) in
    if n <? preceding then
      let month := month - 1 in
      let preceding :=
        preceding
        - (nth (Z.to_nat month) _DAYS_IN_MONTH 0
           + (if (month =? 2) && leapyear then 1 else 0)) in
      (year, month, n - preceding + 1)
    else (year, month, n - preceding + 1).

(** ** date and datetime objects *)

Record date : Type := mkdate {
  d_year : Z;
  d_month : Z;
  d_day : Z
}.

(** A [datetime]; [tz] is [None] for a naive value and otherwise holds
    [tzinfo.utcoffset(self)] in microseconds. *)
Record datetime : Type := mkdatetime {
  year : Z;
  month : Z;
  day : Z;
  hour : Z;
  minute : Z;
  second : Z;
  microsecond : Z;
  tz : option Z
}.

Definition us_per_second : Z := 1000000.
Definition us_per_day : Z := 86400 * us_per_second.

(** The invariants the constructors of [date] and [datetime] enforce. *)
Definition valid_date (d : date) : bool :=
  (1 <=? d_year d) && (d_year d <=? 9999)
  && (1 <=? d_month d) && (d_month d <=? 12)
  && (1 <=? d_day d) && (d_day d <=? _days_in_month (d_year d) (d_month d)).

Definition valid_datetime (t : datetime) : bool :=
  valid_date (mkdate (year t) (month t) (day t))
  && (0 <=? hour t) && (hour t <? 24)
  && (0 <=? minute t) && (minute t <? 60)
  && (0 <=? second t) && (second t <? 60)
  && (0 <=? microsecond t) && (microsecond t <? us_per_second)
  && match tz t with
     | Some off => (- us_per_day <? off) && (off <? us_per_day)
     | None => true
     end.

(** The wall clock fields as one count of microseconds, days counted by
    ordinal (0001-01-01 is day 1): the [timedelta] that
    [datetime.__add__] builds from [self]. *)
Definition wall_micros (t : datetime) : Z :=
  _ymd2ord (year t) (month t) (day t) * us_per_day
  + ((hour t * 60 + minute t) * 60 + second t) * us_per_second
  + microsecond t.

(** [self + timedelta(microseconds=delta)], keeping [tzinfo]. *)
Definition add_micros (t : datetime) (delta : Z) : result datetime :=
  let total := wall_micros t + delta in
  let days := total / us_per_day in
  let rest := total mod us_per_day in
  let seconds := rest / us_per_second in
  let hour := seconds / 3600 in
  let rem := seconds mod 3600 in
  if (0 <? days) && (days <=? _MAXORDINAL) then
    let '(y, m, d) := _ord2ymd days in
    Ok (mkdatetime y m d hour (rem / 60) (rem mod 60) (rest mod us_per_second) (tz t))
  else Raise OverflowError.

(** The instant an aware datetime denotes: its wall clock count moved to
    UTC. *)
Definition instant (t : datetime) (offset : Z) : Z := wall_micros t - offset.

Definition with_tz (t : datetime) (off : Z) : datetime :=
  mkdatetime (year t) (month t) (day t) (hour t) (minute t) (second t)
             (microsecond t) (Some off).

(** ** Rendering *)

(** [date.isoformat()] *)
Definition date_isoformat (d : date) : pystr :=
  fmt_d 4 (d_year d) ++ lit "-" ++ fmt_d 2 (d_month d) ++ lit "-" ++ fmt_d 2 (d_day d).

(** [_format_time(hh, mm, ss, us, 'auto')] *)
Definition _format_time (hh mm ss us : Z) : pystr :=
  fmt_d 2 hh ++ lit ":" ++ fmt_d 2 mm ++ lit ":" ++ fmt_d 2 ss
  ++ (if us =? 0 then [] else lit "." ++ fmt_d 6 us).

(** [_format_offset(off)] for an offset in microseconds. *)
Definition _format_offset (off : option Z) : pystr :=
  match off with
  | None => []
  | Some off =>
      let sign := if off <? 0 then lit "-" else lit "+" in
      let a := Z.abs off in
      let hh := a / (3600 * us_per_second) in
      let r := a mod (3600 * us_per_second) in
      let mm := r / (60 * us_per_second) in
      let ss := r mod (60 * us_per_second) in
      sign ++ fmt_d 2 hh ++ lit ":" ++ fmt_d 2 mm
      ++ (if ss =? 0 then []
          else lit ":" ++ fmt_d 2 (ss / us_per_second)
               ++ (if ss mod us_per_second =? 0 then []
                   else lit "." ++ fmt_d 6 (ss mod us_per_second)))
  end.

(** [datetime.isoformat()] *)
Definition isoformat (t : datetime) : pystr :=
  fmt_d 4 (year t) ++ lit "-" ++ fmt_d 2 (month t) ++ lit "-" ++ fmt_d 2 (day t)
  ++ lit "T" ++ _format_time (hour t) (minute t) (second t) (microsecond t)
  ++ _format_offset (tz t).

(** The part of [isoformat] before the offset. *)
Definition iso_local (t : datetime) : pystr :=
  fmt_d 4 (year t) ++ lit "-" ++ fmt_d 2 (month t) ++ lit "-" ++ fmt_d 2 (day t)
  ++ lit "T" ++ _format_time (hour t) (minute t) (second t) (microsecond t).

(** ** Reading a rendered UTC timestamp back

    [parse_utc] reads ["YYYY-MM-DDTHH:MM:SS[.ffffff]Z"], the form produced
    for a timestamp, into a UTC datetime; it is the parser the timestamp
    law of the specification speaks of. *)
Definition parse_field (w : nat) (s : pystr) : option (Z * pystr) :=
  if Nat.leb w (List.length s) then
    match parse_digits (firstn w s) with
    | Some n => Some (Z.of_N n, skipn w s)
    | None => None
    end
  else None.

Definition expect (c : string) (s : pystr) : option pystr :=
  if startswith (lit c) s then Some (skipn (List.length (lit c)) s) else None.

Definition parse_utc (s : pystr) : option datetime :=
  match parse_field 4 s with None => None | Some (y, s) =>
  match expect "-" s with None => None | Some s =>
  match parse_field 2 s with None => None | Some (mo, s) =>
  match expect "-" s with None => None | Some s =>
  match parse_field 2 s with None => None | Some (d, s) =>
  match expect "T" s with None => None | Some s =>
  match parse_field 2 s with None => None | Some (h, s) =>
  match expect ":" s with None => None | Some s =>
  match parse_field 2 s with None => None | Some (mi, s) =>
  match expect ":" s with None => None | Some s =>
  match parse_field 2 s with None => None | Some (sec, s) =>
  match expect "." s with
  | Some s =>
      match parse_field 6 s with None => None | Some (us, s) =>
      if str_eqb s (lit "Z")
      then Some (mkdatetime y mo d h mi sec us (Some 0)) else None
      end
  | None =>
      if str_eqb s (lit "Z")
      then Some (mkdatetime y mo d h mi sec 0 (Some 0)) else None
  end end end end end end end end end end end end.

(* ===================================================================== *)
(** * decimal.Decimal under the default context *)
(* ===================================================================== *)

(** A [Decimal] is a finite number [(-1)^sign * coeff * 10^exp], an
    infinity, or a NaN (quiet or signaling; the payload plays no role). *)
Inductive Decimal : Type :=
| DFinite (sign : bool) (coeff : N) (exp : Z)
| DInfinity (sign : bool)
| DNaN (sign : bool) (signaling : bool).

(** [decimal.getcontext()] of a fresh interpreter: 28 digits,
    ROUND_HALF_EVEN, exponents in [-999999, 999999], and the traps
    InvalidOperation, DivisionByZero and Overflow (each raises). *)
Definition prec : Z := 28.
Definition Emin : Z := -999999.
Definition Emax : Z := 999999.
Definition Etiny : Z := Emin - prec + 1.
Definition Etop : Z := Emax - prec + 1.

Definition coeff_digits (c : N) : Z := Z.of_nat (ndigits c).

(** [Decimal.adjusted()]: the exponent of the leading digit. *)
Definition adjusted (c : N) (e : Z) : Z := e + coeff_digits c - 1.

(** Rounding [c * 10^e] to the coarser exponent [e'] ([e < e']), ties to
    the even neighbour: the coefficient at exponent [e']. *)
Definition round_half_even (c : N) (e e' : Z) : N :=
  let unit := (10 ^ Z.to_N (e' - e))%N in
  let q := (c / unit)%N in
  let r := (c mod unit)%N in
  match (2 * r ?= unit)%N with
  | Lt => q
  | Gt => (q + 1)%N
  | Eq => if N.even q then q else (q + 1)%N
  end.

(** [Decimal._fix(context)]: fit a finite result to the context.  A zero
    keeps its sign and has its exponent clamped; a coefficient longer than
    [prec] digits, or an exponent below [Etiny], is rounded (Rounded,
    Inexact, Subnormal, Underflow and Clamped are not trapped); a result
    above the exponent range raises Overflow. *)
Definition _fix (sign : bool) (c : N) (e : Z) : result Decimal :=
  if (c =? 0)%N then Ok (DFinite sign 0 (Z.min (Z.max e Etiny) Emax))
  else
    let exp_min := coeff_digits c + e - prec in
    if Etop <? exp_min then Raise Overflow
    else
      let exp_min := Z.max exp_min Etiny in
      if e <? exp_min then
        let c' := round_half_even c e exp_min in
        if coeff_digits c' >? prec then
          if Etop <? exp_min + 1 then Raise Overflow
          else Ok (DFinite sign (c' / 10)%N (exp_min + 1))
        else Ok (DFinite sign c' exp_min)
      else Ok (DFinite sign c e).

(** [self % 1] ([Decimal.__mod__] with [other = Decimal(1)], through
    [_divide]).  The remainder exists only when the integer quotient fits
    [prec] digits; otherwise DivisionImpossible, an InvalidOperation, is
    raised. *)
Definition mod_one (self : Decimal) : result Decimal :=
  match self with
  | DNaN s true => Raise InvalidOperation
  | DNaN s false => Ok (DNaN s false)
  | DInfinity _ => Raise InvalidOperation
  | DFinite sign c e =>
      let ideal_exp := Z.min e 0 in
      let expdiff := adjusted c e in
      if (c =? 0)%N || (expdiff <=? -2) then
        (* the quotient is zero; the remainder is [self] rescaled *)
        if (c =? 0)%N then _fix sign 0 ideal_exp
        else _fix sign (c * 10 ^ Z.to_N (e - ideal_exp))%N ideal_exp
      else if expdiff <=? prec then
        let op1 := if 0 <=? e then (c * 10 ^ Z.to_N e)%N else c in
        let op2 := if 0 <=? e then 1%N else (10 ^ Z.to_N (- e))%N in
        let q := (op1 / op2)%N in
        let r := (op1 mod op2)%N in
        if (q <? 10 ^ Z.to_N prec)%N then _fix sign r ideal_exp
        else Raise InvalidOperation
      else Raise InvalidOperation
  end.

(** [d == 0] for the result of [%]. *)
Definition is_zero (d : Decimal) : bool :=
  match d with
  | DFinite _ c _ => (c =? 0)%N
  | _ => false
  end.

(** [int(d)]: truncation towards zero. *)
Definition int_of_decimal (d : Decimal) : result Z :=
  match d with
  | DNaN _ _ => Raise ValueError
  | DInfinity _ => Raise OverflowError
  | DFinite sign c e =>
      let m := if 0 <=? e then (c * 10 ^ Z.to_N e)%N else (c / 10 ^ Z.to_N (- e))%N in
      Ok (if sign then - Z.of_N m else Z.of_N m)
  end.

(** ** float *)

(** A Python float is an IEEE-754 binary64 value. *)
Definition float : Type := spec_float.

Definition binary64_prec : Z := 53.
Definition binary64_emax : Z := 1024.

(** [float(d)]: the binary64 value nearest to [d], ties to even
    ([float(str(d))]); values too large become an infinity. *)
Definition float_of_decimal (d : Decimal) : result float :=
  match d with
  | DNaN _ true => Raise ValueError
  | DNaN _ false => Ok S754_nan
  | DInfinity s => Ok (S754_infinity s)
  | DFinite sign c e =>
      match c with
      | N0 => Ok (S754_zero sign)
      | Npos p =>
          if 0 <=? e then
            Ok (binary_round binary64_prec binary64_emax sign
                  (p * Z.to_pos (10 ^ e))%positive 0)
          else
            let '(mz, ez, lz) :=
              SFdiv_core_binary binary64_prec binary64_emax
                                (Zpos p) 0 (10 ^ (- e)) 0 in
            Ok (binary_round_aux binary64_prec binary64_emax sign mz ez lz)
      end
  end.

(* ===================================================================== *)
(** * Python objects *)
(* ===================================================================== *)

(** The values a record can hold: what botocore's response parser yields
    for DescribeInstanceTypes (None, bool, int, float, str, list, dict
    with str keys, datetime), and the [date] and [Decimal] kinds that
    [json_safe] names.  A dict is its list of items in insertion order;
    the keys of a Python dict are pairwise distinct ([distinct_keys]
    below). *)
#[warnings="-register-all"]
Inductive Any : Type :=
| PyNone
| PyBool (b : bool)
| PyInt (n : Z)
| PyFloat (f : float)
| PyStr (s : pystr)
| PyDatetime (t : datetime)
| PyDate (d : date)
| PyDecimal (d : Decimal)
| PyList (items : list Any)
| PyDict (items : list (pystr * Any)).

Definition dict : Type := list (pystr * Any).

(** [d.get(key)] *)
Fixpoint get (d : dict) (key : pystr) : option Any :=
  match d with
  | [] => None
  | (k, v) :: d' => if str_eqb k key then Some v else get d' key
  end.

(** [d[key]] *)
Definition getitem (d : dict) (key : pystr) : result Any :=
  match get d key with
  | Some v => Ok v
  | None => Raise KeyError
  end.

(** [d[key] = v]: an existing key keeps its position, a new key goes
    last. *)
Fixpoint setitem (d : dict) (key : pystr) (v : Any) : dict :=
  match d with
  | [] => [(key, v)]
  | (k, x) :: d' =>
      if str_eqb k key then (k, v) :: d' else (k, x) :: setitem d' key v
  end.

Definition keys (d : dict) : list pystr := List.map fst d.

(** [for x in o]: the elements of a list, the keys of a dict, the
    characters of a str; any other object is not iterable. *)
Definition iterate (o : Any) : result (list Any) :=
  match o with
  | PyList items => Ok items
  | PyDict items => Ok (List.map (fun kv => PyStr (fst kv)) items)
  | PyStr s => Ok (List.map (fun c => PyStr [c]) s)
  | _ => Raise TypeError
  end.

(** ** sorted *)

(** [sorted] is stable; so is this insertion sort, and on distinct keys
    every sort returns the same list. *)
Fixpoint insert_by {A : Type} (key : A -> pystr) (x : A) (l : list A) : list A :=
  match l with
  | [] => [x]
  | h :: t => if str_leb (key x) (key h) then x :: h :: t
              else h :: insert_by key x t
  end.

Definition sort_by {A : Type} (key : A -> pystr) (l : list A) : list A :=
  fold_right (insert_by key) [] l.

(** [sorted(d)]: the keys of [d] in ascending order. *)
Definition sorted (d : dict) : list pystr := sort_by (fun k => k) (keys d).

(** [sorted(d.items())] where the keys are distinct. *)
Definition sorted_items {A : Type} (items : list (pystr * A)) : list (pystr * A) :=
  sort_by fst items.

(* ===================================================================== *)
(** * The script *)
(* ===================================================================== *)

Section Host.

(** The UTC offset, in microseconds, of the host's local time zone at a
    naive datetime ([datetime._local_timezone]). *)
Variable local_utcoffset : datetime -> Z.

(** [float.__repr__] on finite floats. *)
Variable float_repr : float -> pystr.

(** [t.astimezone(UTC)]: [t - offset] with [tzinfo] replaced by UTC, then
    [UTC.fromutc], which adds the zero offset. *)
Definition astimezone_utc (t : datetime) : result datetime :=
  let myoffset :=
    match tz t with
    | Some off => off
    | None => local_utcoffset t
    end in
  utc <- add_micros t (- myoffset) ;;
  add_micros (with_tz utc 0) 0.

(** ** json_safe *)

Fixpoint json_safe (value : Any) : result Any :=
  match value with
  | PyDict items =>
      d <- (fix comprehension (l : list (pystr * Any)) : result dict :=
              match l with
              | [] => Ok []
              | (key, item) :: l' =>
                  v <- json_safe item ;;
                  d' <- comprehension l' ;;
                  Ok ((key, v) :: d')
              end) items ;;
      Ok (PyDict d)
  | PyList items =>
      l <- (fix comprehension (l : list Any) : result (list Any) :=
              match l with
              | [] => Ok []
              | item :: l' =>
                  v <- json_safe item ;;
                  r <- comprehension l' ;;
                  Ok (v :: r)
              end) items ;;
      Ok (PyList l)
  | PyDatetime t =>
      u <- astimezone_utc t ;;
      Ok (PyStr (replace (lit "+00:00") (lit "Z") (isoformat u)))
  | PyDate d => Ok (PyStr (date_isoformat d))
  | PyDecimal d =>
      r <- mod_one d ;;
      if is_zero r then
        n <- int_of_decimal d ;; Ok (PyInt n)
      else
        f <- float_of_decimal d ;; Ok (PyFloat f)
  | _ => Ok value
  end.

(** The two comprehensions of [json_safe], by name. *)
Fixpoint json_safe_items (l : list (pystr * Any)) : result dict :=
  match l with
  | [] => Ok []
  | (key, item) :: l' =>
      v <- json_safe item ;;
      d' <- json_safe_items l' ;;
      Ok ((key, v) :: d')
  end.

Fixpoint json_safe_list (l : list Any) : result (list Any) :=
  match l with
  | [] => Ok []
  | item :: l' =>
      v <- json_safe item ;;
      r <- json_safe_list l' ;;
      Ok (v :: r)
  end.

(** ** The fetch loop of main *)

(** What [paginator.paginate()] does when iterated: it yields a page, or
    is exhausted, or a call raises a BotoCoreError or ClientError whose
    text is [exc]. *)
Inductive provider : Type :=
| Exhausted
| Fails (exc : pystr)
| Page (page : dict) (rest : provider).

(** One pass of the inner loop body, lines 80-84. *)
Definition add_item (instance_types : dict) (raw_item : Any) : result dict :=
  item <- json_safe raw_item ;;
  match item with
  | PyDict fields =>
      match get fields (lit "InstanceType") with
      | Some (PyStr instance_type) =>
          match instance_type with
          | [] => Ok instance_types
          | _ :: _ => Ok (setitem instance_types instance_type item)
          end
      | _ => Ok instance_types
      end
  | _ => Raise AttributeError   (* item.get *)
  end.

(** The inner loop, line 79. *)
Fixpoint add_items (instance_types : dict) (raw_items : list Any) : result dict :=
  match raw_items with
  | [] => Ok instance_types
  | raw_item :: rest =>
      instance_types' <- add_item instance_types raw_item ;;
      add_items instance_types' rest
  end.

(** [page.get("InstanceTypes", [])] *)
Definition page_items (page : dict) : Any :=
  match get page (lit "InstanceTypes") with
  | Some v => v
  | None => PyList []
  end.

(** How the [try] statement of lines 76-91 is left: normally or through
    the [except] clause ([Fetched], with the text of the caught
    exception), or by an exception the clause does not catch. *)
Inductive fetched : Type :=
| Fetched (instance_types : dict) (failure : option pystr)
| Uncaught (e : exn).

Fixpoint fetch (instance_types : dict) (p : provider) : fetched :=
  match p with
  | Exhausted => Fetched instance_types None
  | Fails exc => Fetched instance_types (Some exc)
  | Page page rest =>
      match (raw_items <- iterate (page_items page) ;;
             add_items instance_types raw_items) with
      | Ok instance_types' => fetch instance_types' rest
      | Raise e => Uncaught e
      end
  end.

(** ** json.dumps(payload, indent=2, sort_keys=True) *)

Definition escape_char (c : N) : pystr :=
  if (c =? 92)%N then [92; 92]%N
  else if (c =? 34)%N then [92; 34]%N
  else if (c =? 8)%N then lit "\b"
  else if (c =? 12)%N then lit "\f"
  else if (c =? 10)%N then lit "\n"
  else if (c =? 13)%N then lit "\r"
  else if (c =? 9)%N then lit "\t"
  else if ((32 <=? c) && (c <=? 126))%N then [c]
  else if (c <? 65536)%N then lit "\u" ++ fmt_04x c
  else
    let n := (c - 65536)%N in
    lit "\u" ++ fmt_04x (N.lor 55296 (N.land (N.shiftr n 10) 1023))
    ++ lit "\u" ++ fmt_04x (N.lor 56320 (N.land n 1023)).

(** [py_encode_basestring_ascii] *)
Definition encode_basestring_ascii (s : pystr) : pystr :=
  [34%N] ++ flat_map escape_char s ++ [34%N].

Definition floatstr (f : float) : pystr :=
  match f with
  | S754_nan => lit "NaN"
  | S754_infinity false => lit "Infinity"
  | S754_infinity true => lit "-Infinity"
  | _ => float_repr f
  end.

(** ['\n' + ' ' * 2 * level] *)
Definition newline_indent (level : nat) : pystr :=
  10%N :: repeat 32%N (2 * level).

(** One [key: value] line of an object. *)
Definition member (kc : pystr * pystr) : pystr :=
  encode_basestring_ascii (fst kc) ++ lit ": " ++ snd kc.

(** The text of a non-empty array and of a non-empty object from the
    texts of their parts, at nesting depth [level]. *)
Definition array_text (level : nat) (chunks : list pystr) : pystr :=
  lit "[" ++ newline_indent (S level)
  ++ join (lit "," ++ newline_indent (S level)) chunks
  ++ newline_indent level ++ lit "]".

Definition object_text (level : nat) (members : list (pystr * pystr)) : pystr :=
  lit "{" ++ newline_indent (S level)
  ++ join (lit "," ++ newline_indent (S level)) (List.map member members)
  ++ newline_indent level ++ lit "}".

(** [_iterencode]: the members of every object are emitted in the order
    of [sorted(dct.items())].  The values are encoded first and the
    encoded members sorted by key afterwards, which yields the same text;
    the only exception there is, TypeError for an object that is not
    JSON serializable, is raised either way. *)
Fixpoint encode (level : nat) (o : Any) : result pystr :=
  match o with
  | PyStr s => Ok (encode_basestring_ascii s)
  | PyNone => Ok (lit "null")
  | PyBool true => Ok (lit "true")
  | PyBool false => Ok (lit "false")
  | PyInt n => Ok (str_of_int n)
  | PyFloat f => Ok (floatstr f)
  | PyList [] => Ok (lit "[]")
  | PyList items =>
      chunks <- (fix each (l : list Any) : result (list pystr) :=
                   match l with
                   | [] => Ok []
                   | x :: l' =>
                       c <- encode (S level) x ;;
                       r <- each l' ;;
                       Ok (c :: r)
                   end) items ;;
      Ok (array_text level chunks)
  | PyDict [] => Ok (lit "{}")
  | PyDict items =>
      members <- (fix each (l : list (pystr * Any)) : result (list (pystr * pystr)) :=
                    match l with
                    | [] => Ok []
                    | (k, x) :: l' =>
                        c <- encode (S level) x ;;
                        r <- each l' ;;
                        Ok ((k, c) :: r)
                    end) items ;;
      Ok (object_text level (sorted_items members))
  | PyDatetime _ | PyDate _ | PyDecimal _ => Raise TypeError
  end.

Definition dumps (o : Any) : result pystr := encode 0 o.

(** The two loops of [encode], by name. *)
Definition encode_each (level : nat) : list Any -> result (list pystr) :=
  fix each (l : list Any) : result (list pystr) :=
    match l with
    | [] => Ok []
    | x :: l' =>
        c <- encode level x ;;
        r <- each l' ;;
        Ok (c :: r)
    end.

Definition encode_members (level : nat)
  : list (pystr * Any) -> result (list (pystr * pystr)) :=
  fix each (l : list (pystr * Any)) : result (list (pystr * pystr)) :=
    match l with
    | [] => Ok []
    | (k, x) :: l' =>
        c <- encode level x ;;
        r <- each l' ;;
        Ok ((k, c) :: r)
    end.

(** ** main *)

(** The namespace [parse_args] returns; [output] is [str(args.output)]. *)
Record args : Type := mkargs {
  output : pystr;
  region : pystr;
  profile : pystr;
  allow_empty : bool
}.

(** The file system calls of lines 114-115. *)
Inductive fs_call : Type :=
| mkdir_parent (path : pystr)              (* path.parent.mkdir(parents=True, exist_ok=True) *)
| write_text (path : pystr) (data : pystr). (* path.write_text(data, encoding="utf-8") *)

(** How [main] ends. *)
Inductive completion : Type :=
| Returned (status : Z)
| Raised (e : exn).

(** What a run does: the lines printed to [sys.stderr] by [main], the
    file system calls made, and how it ends. *)
Record run : Type := mkrun {
  ending : completion;
  stderr : list pystr;
  fs_calls : list fs_call
}.

(** The status of the process: [raise SystemExit(main())]; an uncaught
    exception ends the interpreter with status 1. *)
Definition exit_status (r : run) : Z :=
  match ending r with
  | Returned status => status
  | Raised _ => 1
  end.

(** Lines 96-99: [{k: instance_types[k] for k in sorted(instance_types)}] *)
Fixpoint dict_from_keys (instance_types : dict) (ks : list pystr) (acc : dict) : result dict :=
  match ks with
  | [] => Ok acc
  | instance_type :: ks' =>
      v <- getitem instance_types instance_type ;;
      dict_from_keys instance_types ks' (setitem acc instance_type v)
  end.

Definition sorted_instance_types (instance_types : dict) : result dict :=
  dict_from_keys instance_types (sorted instance_types) [].

(** [datetime.now(UTC)] when the UTC wall clock reads [clock]. *)
Definition now_utc (clock : datetime) : datetime := with_tz clock 0.

Definition len (d : dict) : Z := Z.of_nat (List.length d).

(** Lines 101-112. *)
Definition payload (region : pystr) (clock : datetime) (sorted_instance_types : dict) : Any :=
  PyDict
    [ (lit "generated_at",
        PyStr (replace (lit "+00:00") (lit "Z") (isoformat (now_utc clock))));
      (lit "query", PyDict [ (lit "source_region", PyStr region) ]);
      (lit "stats",
        PyDict [ (lit "instance_type_count", PyInt (len sorted_instance_types));
                 (lit "offering_count", PyInt 0) ]);
      (lit "instance_types", PyDict sorted_instance_types);
      (lit "offerings", PyList []) ].

Definition msg_failed (a : args) (exc : pystr) : pystr :=
  lit "failed to query " ++ region a ++ lit ": " ++ exc.

Definition msg_continuing : pystr :=
  lit "continuing with an empty catalog because --allow-empty was set".

Definition msg_no_data : pystr := lit "no instance type data was collected".

Definition msg_wrote (a : args) (n : Z) : pystr :=
  lit "wrote " ++ str_of_int n ++ lit " instance types to " ++ output a.

(** Lines 92-122, entered with what the [try] statement printed. *)
Definition assemble (a : args) (clock : datetime) (instance_types : dict)
           (printed : list pystr) : run :=
  if (match instance_types with [] => true | _ => false end) && negb (allow_empty a)
  then mkrun (Returned 1) (printed ++ [msg_no_data]) []
  else
    match sorted_instance_types instance_types with
    | Raise e => mkrun (Raised e) printed []
    | Ok sorted_types =>
        match dumps (payload (region a) clock sorted_types) with
        | Raise e => mkrun (Raised e) printed [mkdir_parent (output a)]
        | Ok text =>
            mkrun (Returned 0)
                  (printed ++ [msg_wrote a (len sorted_types)])
                  [mkdir_parent (output a); write_text (output a) (text ++ [10%N])]
        end
    end.

(** [main], for the arguments [a], the clock reading [clock] and the
    behaviour [p] of the paginator the session hands out. *)
Definition main (a : args) (clock : datetime) (p : provider) : run :=
  match fetch [] p with
  | Uncaught e => mkrun (Raised e) [] []
  | Fetched instance_types (Some exc) =>
      if negb (allow_empty a)
      then mkrun (Returned 1) [msg_failed a exc] []
      else assemble a clock instance_types [msg_failed a exc; msg_continuing]
  | Fetched instance_types None => assemble a clock instance_types []
  end.

(* ===================================================================== *)
(** * Vocabulary of the properties *)
(* ===================================================================== *)

(** Key order: ascending, and strictly ascending. *)
Definition ascending (ks : list pystr) : Prop :=
  StronglySorted (fun a b => str_leb a b = true) ks.

Definition strictly_ascending (ks : list pystr) : Prop :=
  StronglySorted str_lt ks.

(** A value json.dumps can serialize: no datetime, date or Decimal is
    left anywhere in it. *)
Fixpoint json_clean (v : Any) : bool :=
  match v with
  | PyDatetime _ | PyDate _ | PyDecimal _ => false
  | PyList items => forallb json_clean items
  | PyDict items => forallb (fun kv => json_clean (snd kv)) items
  | _ => true
  end.

(** The keys of a dict are pairwise distinct. *)
Definition distinct_keys (d : dict) : Prop := NoDup (keys d).

(** The value under [key], for a key that is present. *)
Definition value_at (d : dict) (key : pystr) : Any :=
  match get d key with
  | Some v => v
  | None => PyNone
  end.

(** The invariant of the catalog [main] accumulates: distinct keys, and
    records that json.dumps can serialize. *)
Definition catalog_ok (instance_types : dict) : Prop :=
  distinct_keys instance_types /\ json_clean (PyDict instance_types) = true.

(** How the pagination of a provider ends. *)
Fixpoint outcome (p : provider) : option pystr :=
  match p with
  | Exhausted => None
  | Fails exc => Some exc
  | Page _ rest => outcome rest
  end.

(** The usable identifier of a normalized record, if it has one: a
    non-empty str under ["InstanceType"]. *)
Definition identifier (item : Any) : option pystr :=
  match item with
  | PyDict fields =>
      match get fields (lit "InstanceType") with
      | Some (PyStr (c :: s)) => Some (c :: s)
      | _ => None
      end
  | _ => None
  end.

(** [raw_item] is a record: [json_safe] turns it into the dict [item]. *)
Definition normalized_record (raw_item item : Any) : Prop :=
  json_safe raw_item = Ok item /\ exists fields, item = PyDict fields.

(** The catalog after one more normalized record. *)
Definition store (instance_types : dict) (item : Any) : dict :=
  match identifier item with
  | Some instance_type => setitem instance_types instance_type item
  | None => instance_types
  end.

(** The raw records of all pages, in the order the loops visit them. *)
Fixpoint records (p : provider) : result (list Any) :=
  match p with
  | Exhausted => Ok []
  | Fails _ => Ok []
  | Page page rest =>
      raw_items <- iterate (page_items page) ;;
      more <- records rest ;;
      Ok (raw_items ++ more)
  end.

(** JSON text written with ['] standing for the double quote. *)
Definition text (s : string) : pystr :=
  List.map (fun c => if (c =? 39)%N then 34%N else c) (lit s).

Definition LF : pystr := [10%N].

(** The ["generated_at"] string of a run whose clock reads [clock]. *)
Definition generated_at (clock : datetime) : pystr :=
  replace (lit "+00:00") (lit "Z") (isoformat (now_utc clock)).

(** The file a run with an empty catalog writes. *)
Definition empty_catalog_file (region : pystr) (clock : datetime) : pystr :=
  text "{" ++ LF
  ++ text "  'generated_at': " ++ encode_basestring_ascii (generated_at clock) ++ text "," ++ LF
  ++ text "  'instance_types': {}," ++ LF
  ++ text "  'offerings': []," ++ LF
  ++ text "  'query': {" ++ LF
  ++ text "    'source_region': " ++ encode_basestring_ascii region ++ LF
  ++ text "  }," ++ LF
  ++ text "  'stats': {" ++ LF
  ++ text "    'instance_type_count': 0," ++ LF
  ++ text "    'offering_count': 0" ++ LF
  ++ text "  }" ++ LF
  ++ text "}" ++ LF.

(** The value at a path of keys in a document. *)
Fixpoint lookup (o : Any) (path : list string) : option Any :=
  match path with
  | [] => Some o
  | k :: rest =>
      match o with
      | PyDict d =>
          match get d (lit k) with
          | Some v => lookup v rest
          | None => None
          end
      | _ => None
      end
  end.

(** The float 4.0: 2^52 * 2^-50. *)
Definition float_4_0 : float := S754_finite false 4503599627370496 (-50).

(** ** Documents and their serialization *)

Definition scalar (o : Any) : bool :=
  match o with
  | PyList _ | PyDict _ => false
  | _ => true
  end.

(** The object with the items of every dict, at every depth, put in key
    order. *)
Fixpoint canonical (o : Any) : Any :=
  match o with
  | PyList items => PyList (List.map canonical items)
  | PyDict items =>
      PyDict (sorted_items (List.map (fun kv => (fst kv, canonical (snd kv))) items))
  | _ => o
  end.

Definition canonical_item (kv : pystr * Any) : pystr * Any :=
  (fst kv, canonical (snd kv)).

(** The encoder without [sort_keys]: the members of an object are
    emitted in the order the dict holds them. *)
Fixpoint render (level : nat) (o : Any) : result pystr :=
  match o with
  | PyStr s => Ok (encode_basestring_ascii s)
  | PyNone => Ok (lit "null")
  | PyBool true => Ok (lit "true")
  | PyBool false => Ok (lit "false")
  | PyInt n => Ok (str_of_int n)
  | PyFloat f => Ok (floatstr f)
  | PyList [] => Ok (lit "[]")
  | PyList items =>
      chunks <- (fix each (l : list Any) : result (list pystr) :=
                   match l with
                   | [] => Ok []
                   | x :: l' =>
                       c <- render (S level) x ;;
                       r <- each l' ;;
                       Ok (c :: r)
                   end) items ;;
      Ok (array_text level chunks)
  | PyDict [] => Ok (lit "{}")
  | PyDict items =>
      members <- (fix each (l : list (pystr * Any)) : result (list (pystr * pystr)) :=
                    match l with
                    | [] => Ok []
                    | (k, x) :: l' =>
                        c <- render (S level) x ;;
                        r <- each l' ;;
                        Ok ((k, c) :: r)
                    end) items ;;
      Ok (object_text level members)
  | PyDatetime _ | PyDate _ | PyDecimal _ => Raise TypeError
  end.

Definition render_each (level : nat) : list Any -> result (list pystr) :=
  fix each (l : list Any) : result (list pystr) :=
    match l with
    | [] => Ok []
    | x :: l' =>
        c <- render level x ;;
        r <- each l' ;;
        Ok (c :: r)
    end.

Definition render_members (level : nat)
  : list (pystr * Any) -> result (list (pystr * pystr)) :=
  fix each (l : list (pystr * Any)) : result (list (pystr * pystr)) :=
    match l with
    | [] => Ok []
    | (k, x) :: l' =>
        c <- render level x ;;
        r <- each l' ;;
        Ok ((k, c) :: r)
    end.

(** The keys of every dict, at every depth, are in ascending order. *)
#[warnings="-register-all"]
Inductive keys_sorted : Any -> Prop :=
| keys_sorted_scalar (o : Any) : scalar o = true -> keys_sorted o
| keys_sorted_list (items : list Any) :
    Forall keys_sorted items -> keys_sorted (PyList items)
| keys_sorted_dict (items : dict) :
    ascending (keys items) ->
    Forall (fun kv => keys_sorted (snd kv)) items ->
    keys_sorted (PyDict items).

(** The keys of every dict, at every depth, are pairwise distinct: the
    invariant of Python dicts. *)
#[warnings="-register-all"]
Inductive distinct_everywhere : Any -> Prop :=
| distinct_scalar (o : Any) : scalar o = true -> distinct_everywhere o
| distinct_list (items : list Any) :
    Forall distinct_everywhere items -> distinct_everywhere (PyList items)
| distinct_dict (items : dict) :
    distinct_keys items ->
    Forall (fun kv => distinct_everywhere (snd kv)) items ->
    distinct_everywhere (PyDict items).

(** The same document up to the insertion order of its dicts: two
    objects equal under Python's [==] on dicts and lists. *)
#[warnings="-register-all"]
Inductive same_content : Any -> Any -> Prop :=
| same_scalar (o : Any) : scalar o = true -> same_content o o
| same_list (l l' : list Any) :
    Forall2 same_content l l' -> same_content (PyList l) (PyList l')
| same_dict (d d' d'' : dict) :
    Forall2 (fun kv kv' => fst kv = fst kv' /\ same_content (snd kv) (snd kv')) d d' ->
    Permutation d' d'' ->
    same_content (PyDict d) (PyDict d'').

(** ** The calendar *)

(** Day [r] (from 0) of the first 400-year cycle converts to a date of
    the years 1..400 and back. *)
Definition cycle_day_ok (r : Z) : bool :=
  let '(y, m, d) := _ord2ymd (r + 1) in
  (_ymd2ord y m d =? r + 1)
  && (1 <=? y) && (y <=? 400)
  && (1 <=? m) && (m <=? 12)
  && (1 <=? d) && (d <=? _days_in_month y m).

(** [check] holds on [count] consecutive integers from [r]. *)
Fixpoint all_from (check : Z -> bool) (count : nat) (r : Z) : bool :=
  match count with
  | O => true
  | S c => check r && all_from check c (r + 1)
  end.

(** The datetime in zone [zone] whose wall clock count is [total]. *)
Definition of_micros (total : Z) (zone : option Z) : datetime :=
  let days := total / us_per_day in
  let rest := total mod us_per_day in
  let seconds := rest / us_per_second in
  let '(y, m, d) := _ord2ymd days in
  mkdatetime y m d (seconds / 3600) (seconds mod 3600 / 60) (seconds mod 3600 mod 60)
             (rest mod us_per_second) zone.

(** The instants a datetime can denote in UTC: from 0001-01-01T00:00:00
    to 9999-12-31T23:59:59.999999. *)
Definition representable (micros : Z) : Prop :=
  us_per_day <= micros < (_MAXORDINAL + 1) * us_per_day.

(** The fields of a datetime fit the widths of [isoformat]. *)
Definition fits_isoformat (u : datetime) : Prop :=
  0 <= year u <= 9999 /\ 0 <= month u <= 99 /\ 0 <= day u <= 99 /\
  0 <= hour u <= 99 /\ 0 <= minute u <= 99 /\ 0 <= second u <= 99 /\
  0 <= microsecond u <= 999999.

(** ** Decimal values *)

(** The fractional part of a finite Decimal is zero. *)
Definition has_zero_fraction (d : Decimal) : Prop :=
  match d with
  | DFinite _ c e => (c mod 10 ^ Z.to_N (- e) = 0)%N
  | _ => False
  end.



(** [|d| < 10^28]: the integer part of [d] fits the 28 digits of the
    context. *)
Definition within_precision (d : Decimal) : Prop :=
  match d with
  | DFinite _ c e => (c * 10 ^ Z.to_N e < 10 ^ 28 * 10 ^ Z.to_N (- e))%N
  | _ => False
  end.



(** ** Concrete inputs *)

(** A host in the UTC zone, and a stand-in for [float.__repr__]. *)
Definition host_utc : datetime -> Z := fun _ => 0.
Definition host_repr : float -> pystr := fun _ => lit "0.0".

Definition example_args : args :=
  mkargs (lit "pkg/dc2/instancetype/data/instance_types.json")
         (lit "us-east-1") [] false.

Definition example_args_allow_empty : args :=
  mkargs (lit "pkg/dc2/instancetype/data/instance_types.json")
         (lit "us-east-1") [] true.

Definition example_clock : datetime := mkdatetime 2024 5 6 7 8 9 0 None.

(** Two records, as in the first scenario of the specification, and a
    record without a usable identifier. *)
Definition t3_micro : Any :=
  PyDict [ (lit "InstanceType", PyStr (lit "t3.micro"));
           (lit "VCpuInfo", PyDict [ (lit "DefaultVCpus", PyInt 2) ]) ].

Definition m5_large : Any :=
  PyDict [ (lit "InstanceType", PyStr (lit "m5.large"));
           (lit "MemoryInfo",
             PyDict [ (lit "SizeInMiB", PyDecimal (DFinite false 81920 (-1))) ]) ].

Definition nameless : Any := PyDict [ (lit "InstanceType", PyInt 3) ].

(** A record whose identifier field holds a date, not a str. *)
Definition dated : Any :=
  PyDict [ (lit "InstanceType", PyDate (mkdate 2020 1 1)) ].

Definition example_provider : provider :=
  Page [ (lit "InstanceTypes", PyList [t3_micro]) ]
       (Page [ (lit "InstanceTypes", PyList [m5_large]) ] Exhausted).

Definition failing_provider : provider :=
  Page [ (lit "InstanceTypes", PyList [t3_micro]) ] (Fails (lit "timed out")).

(** The catalog a fetch ended with, and the text a run wrote. *)
Definition catalog_of (f : fetched) : dict :=
  match f with
  | Fetched instance_types _ => instance_types
  | Uncaught _ => []
  end.

Definition written (r : run) : pystr :=
  match fs_calls r with
  | [_; write_text _ data] => data
  | _ => []
  end.

(** The normalized forms of raw records. *)
Definition normalized (raw_items : list Any) : list Any :=
  List.map (fun raw_item =>
              match json_safe raw_item with
              | Ok item => item
              | Raise _ => PyNone
              end) raw_items.

(** 0001-01-01T00:00:00+01:00, an hour before the first UTC datetime. *)
Definition first_hour_east : datetime := mkdatetime 1 1 1 0 0 0 0 (Some 3600000000).

(** 2020-01-02T03:04:05.000007+01:00 *)
Definition example_timestamp : datetime :=
  mkdatetime 2020 1 2 3 4 5 7 (Some 3600000000).


(** ** More vocabulary: what a value holds, dates, printable text *)



(** Reading ["YYYY-MM-DD"], the form [date.isoformat] produces, back. *)
Definition parse_date (s : pystr) : option date :=
  match parse_field 4 s with None => None | Some (y, s) =>
  match expect "-" s with None => None | Some s =>
  match parse_field 2 s with None => None | Some (m, s) =>
  match expect "-" s with None => None | Some s =>
  match parse_field 2 s with None => None | Some (d, s) =>
  match s with
  | [] => Some (mkdate y m d)
  | _ :: _ => None
  end end end end end end.

(** A character of a text file of printable ASCII: a line feed or one of
    the characters from space to tilde. *)
Definition printable (c : N) : bool :=
  (c =? 10)%N || ((32 <=? c) && (c <=? 126))%N.

(** The identifiers of the records that have one. *)
Definition identifiers (items : list Any) : list pystr :=
  flat_map (fun item => match identifier item with
                        | Some id => [id]
                        | None => []
                        end) items.


(** Every record of the catalog is stored under its own identifier. *)
Definition filed_by_identifier (instance_types : dict) : Prop :=
  forall k item, In (k, item) instance_types -> identifier item = Some k.


(** The two records of [example_provider] on one page. *)
Definition one_page_provider : provider :=
  Page [ (lit "InstanceTypes", PyList [t3_micro; m5_large]) ] Exhausted.

(** A page whose second record is an int, not a mapping. *)
Definition scalar_record_provider : provider :=
  Page [ (lit "InstanceTypes", PyList [t3_micro; PyInt 3]) ] Exhausted.

(** [m5_large] after [json_safe]: the Decimal 8192.0 has become an int. *)
Definition m5_large_normalized : Any :=
  PyDict [ (lit "InstanceType", PyStr (lit "m5.large"));
           (lit "MemoryInfo", PyDict [ (lit "SizeInMiB", PyInt 8192) ]) ].

(** 2020-02-29 *)
Definition leap_day : date := mkdate 2020 2 29.

(* ===================================================================== *)
(** * Facts: the order on str and sorting *)
(* ===================================================================== *)

Lemma str_compare_refl (a : pystr) : str_compare a a = Eq.
Proof.
  induction a as [|x a IH]; simpl; [reflexivity|].
  now rewrite N.compare_refl.
Qed.

Lemma str_compare_eq (a b : pystr) : str_compare a b = Eq -> a = b.
Proof.
  revert b; induction a as [|x a IH]; intros [|y b]; simpl; try discriminate; auto.
  destruct (N.compare x y) eqn:E; try discriminate.
  apply N.compare_eq in E. intros H. f_equal; auto.
Qed.

Lemma str_compare_antisym (a b : pystr) :
  str_compare b a = CompOpp (str_compare a b).
Proof.
  revert b; induction a as [|x a IH]; intros [|y b]; simpl; auto.
  rewrite (N.compare_antisym x y).
  destruct (N.compare x y); simpl; auto.
Qed.

Lemma str_lt_trans (a b c : pystr) : str_lt a b -> str_lt b c -> str_lt a c.
Proof.
  unfold str_lt. revert b c.
  induction a as [|x a IH]; intros [|y b] [|z c]; simpl; try discriminate; auto.
  destruct (N.compare x y) eqn:Exy; try discriminate;
    destruct (N.compare y z) eqn:Eyz; try discriminate; intros H1 H2.
  - apply N.compare_eq in Exy, Eyz. subst. rewrite N.compare_refl. eauto.
  - apply N.compare_eq in Exy. subst. now rewrite Eyz.
  - apply N.compare_eq in Eyz. subst. now rewrite Exy.
  - rewrite N.compare_lt_iff in Exy, Eyz.
    assert (E : (x ?= z)%N = Lt) by (apply N.compare_lt_iff; lia).
    now rewrite E.
Qed.

Lemma str_lt_irrefl (a : pystr) : ~ str_lt a a.
Proof. unfold str_lt. now rewrite str_compare_refl. Qed.

Lemma str_lt_asym (a b : pystr) : str_lt a b -> ~ str_lt b a.
Proof.
  unfold str_lt. intros H. rewrite str_compare_antisym, H. discriminate.
Qed.

Lemma str_eqb_eq (a b : pystr) : str_eqb a b = true <-> a = b.
Proof.
  unfold str_eqb. split.
  - destruct (str_compare a b) eqn:E; try discriminate.
    intros _. now apply str_compare_eq.
  - intros ->. now rewrite str_compare_refl.
Qed.

Lemma str_eqb_refl (a : pystr) : str_eqb a a = true.
Proof. now apply str_eqb_eq. Qed.

Lemma str_eqb_neq (a b : pystr) : str_eqb a b = false <-> a <> b.
Proof.
  rewrite <- str_eqb_eq. destruct (str_eqb a b); split; congruence.
Qed.

Lemma str_eqb_sym (a b : pystr) : str_eqb a b = str_eqb b a.
Proof.
  destruct (str_eqb b a) eqn:E.
  - apply str_eqb_eq in E. subst. apply str_eqb_refl.
  - apply str_eqb_neq. apply str_eqb_neq in E. congruence.
Qed.

Lemma str_leb_false_lt (a b : pystr) : str_leb a b = false -> str_lt b a.
Proof.
  unfold str_leb, str_lt. rewrite (str_compare_antisym a b).
  destruct (str_compare a b); simpl; congruence.
Qed.

Lemma str_leb_cases (a b : pystr) :
  str_leb a b = true <-> str_lt a b \/ a = b.
Proof.
  unfold str_leb, str_lt. split.
  - destruct (str_compare a b) eqn:E; try discriminate; intros _.
    + right. now apply str_compare_eq.
    + now left.
  - intros [H | ->]; [now rewrite H | now rewrite str_compare_refl].
Qed.

Lemma str_leb_trans (a b c : pystr) :
  str_leb a b = true -> str_leb b c = true -> str_leb a c = true.
Proof.
  rewrite !str_leb_cases. intros [H1 | ->] [H2 | ->]; auto.
  left. eapply str_lt_trans; eauto.
Qed.

(** ** Insertion sort *)

Section Sorting.

Variable A : Type.
Variable key : A -> pystr.

Lemma insert_by_perm (x : A) (l : list A) :
  Permutation (insert_by key x l) (x :: l).
Proof.
  induction l as [|h t IH]; simpl; [reflexivity|].
  destruct (str_leb (key x) (key h)); [reflexivity|].
  rewrite IH. apply perm_swap.
Qed.

Lemma sort_by_perm (l : list A) : Permutation (sort_by key l) l.
Proof.
  induction l as [|x l IH]; simpl; [reflexivity|].
  rewrite insert_by_perm. now constructor.
Qed.

Lemma sort_by_length (l : list A) : List.length (sort_by key l) = List.length l.
Proof. apply Permutation_length, sort_by_perm. Qed.

Lemma insert_by_ascending (x : A) (l : list A) :
  ascending (List.map key l) -> ascending (List.map key (insert_by key x l)).
Proof.
  unfold ascending.
  induction l as [|h t IH]; simpl; intros Hs.
  - repeat constructor.
  - destruct (str_leb (key x) (key h)) eqn:E.
    + simpl. constructor; [assumption|].
      constructor; [assumption|].
      apply StronglySorted_inv in Hs. destruct Hs as [_ Hall].
      eapply Forall_impl; [|exact Hall].
      intros k Hk. simpl in Hk. eapply str_leb_trans; eauto.
    + apply StronglySorted_inv in Hs. destruct Hs as [Ht Hall].
      simpl. constructor; [auto|].
      assert (Hp : Permutation (List.map key (insert_by key x t)) (key x :: List.map key t)).
      { change (key x :: List.map key t) with (List.map key (x :: t)).
        apply Permutation_map, insert_by_perm. }
      eapply Permutation_Forall; [symmetry; exact Hp|].
      constructor; [|assumption].
      apply str_leb_cases. left. now apply str_leb_false_lt.
Qed.

Lemma sort_by_ascending (l : list A) : ascending (List.map key (sort_by key l)).
Proof.
  induction l as [|x l IH]; simpl.
  - constructor.
  - now apply insert_by_ascending.
Qed.

Lemma map_insert_by (x : A) (l : list A) :
  List.map key (insert_by key x l) = insert_by (fun k => k) (key x) (List.map key l).
Proof.
  induction l as [|h t IH]; simpl; [reflexivity|].
  destruct (str_leb (key x) (key h)); simpl; [reflexivity|].
  now rewrite IH.
Qed.

Lemma map_sort_by (l : list A) :
  List.map key (sort_by key l) = sort_by (fun k => k) (List.map key l).
Proof.
  induction l as [|x l IH]; simpl; [reflexivity|].
  now rewrite map_insert_by, IH.
Qed.

End Sorting.

Lemma ascending_strict (ks : list pystr) :
  ascending ks -> NoDup ks -> strictly_ascending ks.
Proof.
  unfold ascending, strictly_ascending.
  induction ks as [|k ks IH]; intros Hs Hn; [constructor|].
  apply StronglySorted_inv in Hs. destruct Hs as [Hs Hall].
  inversion Hn as [|? ? Hnotin Hn']; subst.
  constructor; [auto|].
  rewrite Forall_forall in *. intros x Hx.
  destruct (proj1 (str_leb_cases k x) (Hall x Hx)) as [Hlt | ->]; [assumption|].
  contradiction.
Qed.

Lemma strictly_ascending_NoDup (ks : list pystr) :
  strictly_ascending ks -> NoDup ks.
Proof.
  unfold strictly_ascending.
  induction ks as [|k ks IH]; intros Hs; [constructor|].
  apply StronglySorted_inv in Hs. destruct Hs as [Hs Hall].
  constructor; [|auto].
  intros Hin. rewrite Forall_forall in Hall.
  exact (str_lt_irrefl (Hall k Hin)).
Qed.

(** Two lists with the same elements, both strictly ascending by key,
    are the same list. *)
Lemma strictly_ascending_unique (A : Type) (key : A -> pystr) (l1 l2 : list A) :
  strictly_ascending (List.map key l1) ->
  strictly_ascending (List.map key l2) ->
  Permutation l1 l2 -> l1 = l2.
Proof.
  unfold strictly_ascending.
  revert l2; induction l1 as [|a l1 IH]; intros l2 H1 H2 Hp.
  - apply Permutation_nil in Hp. now subst.
  - destruct l2 as [|b l2].
    + symmetry in Hp. apply Permutation_nil in Hp. discriminate.
    + simpl in H1, H2.
      apply StronglySorted_inv in H1. destruct H1 as [H1 Ha].
      apply StronglySorted_inv in H2. destruct H2 as [H2 Hb].
      rewrite Forall_forall in Ha, Hb.
      assert (Hina : In a (b :: l2)) by (eapply Permutation_in; [exact Hp| now left]).
      assert (Hinb : In b (a :: l1)) by (eapply Permutation_in; [symmetry; exact Hp| now left]).
      assert (Hab : a = b).
      { destruct Hina as [E | Hina]; [now symmetry|].
        destruct Hinb as [E | Hinb]; [assumption|].
        exfalso.
        apply (str_lt_asym (a := key a) (b := key b)).
        - apply Ha. now apply in_map.
        - apply Hb. now apply in_map. }
      subst b. f_equal. apply IH; auto.
      eapply Permutation_cons_inv; eauto.
Qed.

Lemma sort_by_unique (A : Type) (key : A -> pystr) (l l' : list A) :
  Permutation l l' -> NoDup (List.map key l) -> sort_by key l = sort_by key l'.
Proof.
  intros Hp Hn.
  assert (Hn' : NoDup (List.map key l')).
  { eapply Permutation_NoDup; [|exact Hn]. now apply Permutation_map. }
  apply strictly_ascending_unique with (key := key).
  - apply ascending_strict; [apply sort_by_ascending|].
    eapply Permutation_NoDup; [|exact Hn].
    symmetry. apply Permutation_map, sort_by_perm.
  - apply ascending_strict; [apply sort_by_ascending|].
    eapply Permutation_NoDup; [|exact Hn'].
    symmetry. apply Permutation_map, sort_by_perm.
  - rewrite sort_by_perm, Hp. symmetry. apply sort_by_perm.
Qed.

(* ===================================================================== *)
(** * Facts: dicts *)
(* ===================================================================== *)

Lemma bind_Ok (A B : Type) (m : result A) (k : A -> result B) (b : B) :
  bind m k = Ok b -> exists a, m = Ok a /\ k a = Ok b.
Proof. destruct m; simpl; [eauto | discriminate]. Qed.

Ltac inv_bind H :=
  let x := fresh "x" in
  let E := fresh "E" in
  apply bind_Ok in H; destruct H as (x & E & H).

Lemma get_In (d : dict) (k : pystr) (v : Any) : get d k = Some v -> In (k, v) d.
Proof.
  induction d as [|[k' v'] d IH]; simpl; [discriminate|].
  destruct (str_eqb k' k) eqn:E.
  - apply str_eqb_eq in E. intros [= ->]. subst. now left.
  - intros H. right. auto.
Qed.

Lemma get_None (d : dict) (k : pystr) : get d k = None <-> ~ In k (keys d).
Proof.
  induction d as [|[k' v'] d IH]; simpl; [tauto|].
  destruct (str_eqb k' k) eqn:E.
  - apply str_eqb_eq in E. subst. split; [discriminate | tauto].
  - apply str_eqb_neq in E. rewrite IH. tauto.
Qed.

Lemma In_get (d : dict) (k : pystr) (v : Any) :
  distinct_keys d -> In (k, v) d -> get d k = Some v.
Proof.
  unfold distinct_keys.
  induction d as [|[k' v'] d IH]; simpl; [tauto|].
  intros Hn [H | H].
  - injection H as -> ->. now rewrite str_eqb_refl.
  - inversion Hn as [|? ? Hnotin Hn']; subst.
    destruct (str_eqb k' k) eqn:E.
    + apply str_eqb_eq in E. subst. exfalso. apply Hnotin.
      change k with (fst (k, v)). now apply in_map.
    + auto.
Qed.

Lemma get_setitem_same (d : dict) (k : pystr) (v : Any) :
  get (setitem d k v) k = Some v.
Proof.
  induction d as [|[k' v'] d IH]; simpl.
  - now rewrite str_eqb_refl.
  - destruct (str_eqb k' k) eqn:E; simpl; rewrite E; auto.
Qed.

Lemma get_setitem_other (d : dict) (k k' : pystr) (v : Any) :
  k <> k' -> get (setitem d k v) k' = get d k'.
Proof.
  intros Hne. induction d as [|[k0 v0] d IH]; simpl.
  - apply str_eqb_neq in Hne. now rewrite Hne.
  - destruct (str_eqb k0 k) eqn:E; simpl.
    + apply str_eqb_eq in E. subst k0.
      apply str_eqb_neq in Hne. now rewrite Hne.
    + destruct (str_eqb k0 k'); auto.
Qed.

Lemma setitem_fresh (d : dict) (k : pystr) (v : Any) :
  ~ In k (keys d) -> setitem d k v = d ++ [(k, v)].
Proof.
  induction d as [|[k0 v0] d IH]; simpl; intros Hn; [reflexivity|].
  destruct (str_eqb k0 k) eqn:E.
  - apply str_eqb_eq in E. tauto.
  - f_equal. apply IH. tauto.
Qed.

Lemma keys_setitem_present (d : dict) (k : pystr) (v : Any) :
  In k (keys d) -> keys (setitem d k v) = keys d.
Proof.
  induction d as [|[k0 v0] d IH]; simpl; [tauto|].
  destruct (str_eqb k0 k) eqn:E; simpl; [reflexivity|].
  apply str_eqb_neq in E. intros [H | H]; [contradiction|].
  f_equal. auto.
Qed.

Lemma In_keys_dec (d : dict) (k : pystr) : In k (keys d) \/ ~ In k (keys d).
Proof.
  destruct (get d k) eqn:E.
  - left. apply get_In in E. change k with (fst (k, a)). now apply in_map.
  - right. now apply get_None.
Qed.

Lemma keys_setitem (d : dict) (k : pystr) (v : Any) :
  keys (setitem d k v) = keys d \/
  (~ In k (keys d) /\ keys (setitem d k v) = keys d ++ [k]).
Proof.
  destruct (In_keys_dec d k) as [H | H].
  - left. now apply keys_setitem_present.
  - right. split; [assumption|].
    rewrite setitem_fresh by assumption. unfold keys. now rewrite map_app.
Qed.

Lemma distinct_keys_setitem (d : dict) (k : pystr) (v : Any) :
  distinct_keys d -> distinct_keys (setitem d k v).
Proof.
  unfold distinct_keys. intros Hn.
  destruct (keys_setitem d k v) as [-> | [Hnotin ->]]; [assumption|].
  apply NoDup_app; [assumption | repeat constructor; simpl; tauto |].
  intros x Hx [<- | []]. contradiction.
Qed.

Lemma In_keys_setitem (d : dict) (k k' : pystr) (v : Any) :
  In k' (keys (setitem d k v)) <-> k' = k \/ In k' (keys d).
Proof.
  destruct (In_keys_dec d k) as [H | H].
  - rewrite keys_setitem_present by assumption.
    split; [tauto | intros [-> | ?]; assumption].
  - rewrite setitem_fresh by assumption.
    unfold keys. rewrite map_app, in_app_iff. simpl. intuition congruence.
Qed.

(** The dict comprehension over sorted keys yields the items of the dict
    in key order. *)
Lemma dict_from_keys_spec (d : dict) (ks : list pystr) (acc : dict) :
  NoDup ks ->
  (forall k, In k ks -> ~ In k (keys acc)) ->
  (forall k, In k ks -> In k (keys d)) ->
  dict_from_keys d ks acc = Ok (acc ++ List.map (fun k => (k, value_at d k)) ks).
Proof.
  revert acc. induction ks as [|k ks IH]; intros acc Hn Hfresh Hin; simpl.
  - now rewrite app_nil_r.
  - inversion Hn as [|? ? Hnotin Hn']; subst.
    unfold getitem, value_at.
    destruct (get d k) eqn:E.
    2:{ apply get_None in E. exfalso. apply E, Hin. now left. }
    simpl. rewrite IH; auto.
    + rewrite setitem_fresh by (apply Hfresh; now left).
      rewrite <- app_assoc. reflexivity.
    + intros k' Hk'. rewrite In_keys_setitem. intros [-> | H]; [contradiction|].
      apply (Hfresh k'); [now right | assumption].
    + intros k' Hk'. apply Hin. now right.
Qed.

Lemma sorted_instance_types_spec (d : dict) :
  distinct_keys d -> sorted_instance_types d = Ok (sorted_items d).
Proof.
  intros Hn. unfold sorted_instance_types, sorted, sorted_items, keys.
  rewrite <- map_sort_by.
  assert (Hp : Permutation (sort_by fst d) d) by apply sort_by_perm.
  rewrite dict_from_keys_spec.
  - simpl. f_equal. rewrite map_map.
    rewrite <- (map_id (sort_by fst d)) at 2.
    apply map_ext_in. intros [k v] Hkv. simpl. f_equal.
    unfold value_at. rewrite (@In_get d k v); auto.
    eapply Permutation_in; eauto.
  - eapply Permutation_NoDup; [|exact Hn].
    symmetry. now apply Permutation_map.
  - simpl. tauto.
  - intros k Hk. eapply Permutation_in; [|exact Hk]. now apply Permutation_map.
Qed.

(* ===================================================================== *)
(** * Facts: json_safe *)
(* ===================================================================== *)

(** Induction on Python objects, through lists and dicts. *)
Lemma Any_induction (P : Any -> Prop) :
  P PyNone ->
  (forall b, P (PyBool b)) ->
  (forall n, P (PyInt n)) ->
  (forall f, P (PyFloat f)) ->
  (forall s, P (PyStr s)) ->
  (forall t, P (PyDatetime t)) ->
  (forall d, P (PyDate d)) ->
  (forall d, P (PyDecimal d)) ->
  (forall items, Forall P items -> P (PyList items)) ->
  (forall items, Forall (fun kv => P (snd kv)) items -> P (PyDict items)) ->
  forall v, P v.
Proof.
  intros HNone HBool HInt HFloat HStr HDt HDate HDec HList HDict.
  fix IH 1. intros [ | b | n | f | s | t | d | d | items | items];
    [ exact HNone | apply HBool | apply HInt | apply HFloat | apply HStr
    | apply HDt | apply HDate | apply HDec | | ].
  - apply HList. revert items. fix IHl 1.
    intros [|x l]; constructor; [apply IH | apply IHl].
  - apply HDict. revert items. fix IHl 1.
    intros [|[k x] l]; constructor; [apply IH | apply IHl].
Qed.

Lemma json_safe_dict (items : list (pystr * Any)) :
  json_safe (PyDict items) = (d <- json_safe_items items ;; Ok (PyDict d)).
Proof. reflexivity. Qed.

Lemma json_safe_list_eq (items : list Any) :
  json_safe (PyList items) = (l <- json_safe_list items ;; Ok (PyList l)).
Proof. reflexivity. Qed.

(** What [json_safe] returns holds no datetime, date or Decimal. *)
Lemma json_safe_clean (v w : Any) : json_safe v = Ok w -> json_clean w = true.
Proof.
  revert w.
  induction v as [ | b | n | f | s | t | d | d | items IHitems | items IHitems]
    using Any_induction; intros w H;
    try (injection H as <-; reflexivity).
  - (* datetime *) simpl in H. inv_bind H. now injection H as <-.
  - (* Decimal *) simpl in H. inv_bind H.
    destruct (is_zero x); inv_bind H; now injection H as <-.
  - (* list *)
    rewrite json_safe_list_eq in H. inv_bind H. injection H as <-. simpl.
    revert x E. induction IHitems as [|v l Hv Hl IHl]; intros x E; simpl in E.
    + now injection E as <-.
    + inv_bind E. inv_bind E. injection E as <-. simpl.
      rewrite (Hv _ E0). simpl. eauto.
  - (* dict *)
    rewrite json_safe_dict in H. inv_bind H. injection H as <-. simpl.
    revert x E. induction IHitems as [|[k v] l Hv Hl IHl]; intros x E; simpl in E.
    + now injection E as <-.
    + inv_bind E. inv_bind E. injection E as <-. simpl in *.
      rewrite (Hv _ E0). simpl. eauto.
Qed.

(** On such a value [json_safe] changes nothing. *)
Lemma json_safe_of_clean (v : Any) : json_clean v = true -> json_safe v = Ok v.
Proof.
  induction v as [ | b | n | f | s | t | d | d | items IHitems | items IHitems]
    using Any_induction; intros Hc; try reflexivity; try discriminate.
  - (* list *)
    rewrite json_safe_list_eq. simpl in Hc.
    assert (E : json_safe_list items = Ok items).
    { induction IHitems as [|v l Hv Hl IHl]; simpl in *; [reflexivity|].
      apply andb_prop in Hc. destruct Hc as [Hc1 Hc2].
      rewrite (Hv Hc1). simpl. rewrite (IHl Hc2). reflexivity. }
    now rewrite E.
  - (* dict *)
    rewrite json_safe_dict. simpl in Hc.
    assert (E : json_safe_items items = Ok items).
    { induction IHitems as [|[k v] l Hv Hl IHl]; simpl in *; [reflexivity|].
      apply andb_prop in Hc. destruct Hc as [Hc1 Hc2].
      rewrite (Hv Hc1). simpl. rewrite (IHl Hc2). reflexivity. }
    now rewrite E.
Qed.

(** [json_safe] keeps the keys of a dict, in order. *)
Lemma json_safe_items_keys (items : list (pystr * Any)) (d : dict) :
  json_safe_items items = Ok d -> keys d = keys items.
Proof.
  revert d. induction items as [|[k v] l IH]; intros d H; simpl in H.
  - now injection H as <-.
  - inv_bind H. inv_bind H. injection H as <-. simpl. f_equal. auto.
Qed.

Lemma json_safe_items_get (items : list (pystr * Any)) (d : dict) (k : pystr) :
  json_safe_items items = Ok d ->
  match get items k with
  | Some v => exists w, json_safe v = Ok w /\ get d k = Some w
  | None => get d k = None
  end.
Proof.
  revert d. induction items as [|[k0 v0] l IH]; intros d H; simpl in H.
  - injection H as <-. reflexivity.
  - inv_bind H. inv_bind H. injection H as <-. simpl.
    destruct (str_eqb k0 k).
    + exists x. split; [assumption | reflexivity].
    + now apply IH.
Qed.

Lemma json_safe_decimal_eq (d : Decimal) :
  json_safe (PyDecimal d) =
  (r <- mod_one d ;;
   if is_zero r then n <- int_of_decimal d ;; Ok (PyInt n)
   else f <- float_of_decimal d ;; Ok (PyFloat f)).
Proof. reflexivity. Qed.

(* ===================================================================== *)
(** * The normalizer on values it leaves alone *)
(* ===================================================================== *)

(** C6. The normalizer is idempotent: normalizing the result of a
    normalization returns it unchanged, so normalize(normalize(v)) is
    normalize(v) -- the same value, or the same exception from the inner
    call. *)
Theorem json_safe_idempotent (v : Any) :
  (w <- json_safe v ;; json_safe w) = json_safe v.
Proof.
  destruct (json_safe v) as [w|e] eqn:E; simpl; [|reflexivity].
  apply json_safe_of_clean. eapply json_safe_clean; eauto.
Qed.

(** C10. The integer rule is for Decimal inputs only: an ordinary float
    passes through unchanged as a float, whatever its fractional part --
    float 4.0 stays the float 4.0 -- and is never turned into an int. *)
Theorem float_passes_through_unchanged (f : float) :
  json_safe (PyFloat f) = Ok (PyFloat f) /\
  json_safe (PyFloat float_4_0) = Ok (PyFloat float_4_0) /\
  forall n, json_safe (PyFloat f) <> Ok (PyInt n).
Proof. repeat split. discriminate. Qed.

(** The only inputs [json_safe] turns into an int are that int itself
    and Decimals. *)
Lemma int_results (v : Any) (n : Z) :
  json_safe v = Ok (PyInt n) -> v = PyInt n \/ exists d, v = PyDecimal d.
Proof.
  destruct v; simpl; intros H; try discriminate; eauto.
  - injection H as <-. now left.
  - inv_bind H. discriminate.
  - rewrite <- json_safe_list_eq in H. rewrite json_safe_list_eq in H.
    inv_bind H. discriminate.
  - rewrite <- json_safe_dict in H. rewrite json_safe_dict in H.
    inv_bind H. discriminate.
Qed.

(* ===================================================================== *)
(** * Facts: json.dumps succeeds on what json_safe returns *)
(* ===================================================================== *)

Lemma encode_list_eq (level : nat) (x : Any) (l : list Any) :
  encode level (PyList (x :: l)) =
  (chunks <- encode_each (S level) (x :: l) ;; Ok (array_text level chunks)).
Proof. reflexivity. Qed.

Lemma encode_dict_eq (level : nat) (kv : pystr * Any) (l : list (pystr * Any)) :
  encode level (PyDict (kv :: l)) =
  (members <- encode_members (S level) (kv :: l) ;;
   Ok (object_text level (sorted_items members))).
Proof. destruct kv. reflexivity. Qed.


(* ===================================================================== *)
(** * Facts: the catalog invariant *)
(* ===================================================================== *)

Lemma clean_setitem (d : dict) (k : pystr) (v : Any) :
  json_clean (PyDict d) = true -> json_clean v = true ->
  json_clean (PyDict (setitem d k v)) = true.
Proof.
  simpl. intros Hd Hv. induction d as [|[k0 v0] d IH]; simpl in *.
  - now rewrite Hv.
  - apply andb_prop in Hd. destruct Hd as [H0 Hd].
    destruct (str_eqb k0 k); simpl.
    + now rewrite Hv, Hd.
    + now rewrite H0, IH.
Qed.

Lemma catalog_ok_nil : catalog_ok [].
Proof. split; [constructor | reflexivity]. Qed.

Lemma add_item_ok (cat cat' : dict) (raw_item : Any) :
  add_item cat raw_item = Ok cat' -> catalog_ok cat -> catalog_ok cat'.
Proof.
  unfold add_item. intros H [Hd Hc]. inv_bind H.
  pose proof (json_safe_clean _ E) as Hx.
  destruct x as [ | | | | | | | | | fields]; try discriminate.
  destruct (get fields (lit "InstanceType")) as [[ | | | | [|c s] | | | | | ]|];
    injection H as <-; try (split; assumption).
  split; [now apply distinct_keys_setitem | now apply clean_setitem].
Qed.

Lemma add_items_ok (raw_items : list Any) (cat cat' : dict) :
  add_items cat raw_items = Ok cat' -> catalog_ok cat -> catalog_ok cat'.
Proof.
  revert cat. induction raw_items as [|r rs IH]; intros cat H Hok; simpl in H.
  - now injection H as <-.
  - inv_bind H. eapply IH; eauto. eapply add_item_ok; eauto.
Qed.

Lemma fetch_ok (p : provider) (cat cat' : dict) (failure : option pystr) :
  fetch cat p = Fetched cat' failure -> catalog_ok cat -> catalog_ok cat'.
Proof.
  revert cat. induction p as [ | exc | page rest IH]; intros cat H Hok; simpl in H.
  - now injection H as <- _.
  - now injection H as <- _.
  - destruct (iterate (page_items page)) as [raw_items|e] eqn:Ei; simpl in H;
      [|discriminate].
    destruct (add_items cat raw_items) as [cat1|e] eqn:Ea; [|discriminate].
    eapply IH; eauto. eapply add_items_ok; eauto.
Qed.

Lemma fetch_outcome (p : provider) (cat cat' : dict) (failure : option pystr) :
  fetch cat p = Fetched cat' failure -> failure = outcome p.
Proof.
  revert cat. induction p as [ | exc | page rest IH]; intros cat H; simpl in *.
  - now injection H as _ <-.
  - now injection H as _ <-.
  - destruct (bind _ _); [eauto | discriminate].
Qed.


Lemma len_sorted_items (d : dict) : len (sorted_items d) = len d.
Proof. unfold len, sorted_items. now rewrite sort_by_length. Qed.


(* ===================================================================== *)
(** * The failure policy of main *)
(* ===================================================================== *)

(** C2. On hard failure -- the provider call raises a transport or API
    error while allow-empty is unset, or the fetch ends cleanly with
    nothing collected while allow-empty is unset -- the process exits with
    status 1 and makes no file system call: no directory is created and
    no file is written. *)
Theorem hard_failure_exits_1_without_writing
        (a : args) (clock : datetime) (p : provider) :
  allow_empty a = false ->
  (exists instance_types exc, fetch [] p = Fetched instance_types (Some exc))
  \/ fetch [] p = Fetched [] None ->
  exit_status (main a clock p) = 1 /\ fs_calls (main a clock p) = [].
Proof.
  intros Hflag [(cat & exc & Hf) | Hf]; unfold main; rewrite Hf.
  - rewrite Hflag. simpl. split; reflexivity.
  - unfold assemble. rewrite Hflag. simpl. split; reflexivity.
Qed.


(* ===================================================================== *)
(** * Facts: the fetch loop *)
(* ===================================================================== *)

Lemma add_item_store (cat : dict) (raw_item item : Any) :
  normalized_record raw_item item -> add_item cat raw_item = Ok (store cat item).
Proof.
  intros [Hj [fields ->]]. unfold add_item, store, identifier. rewrite Hj. simpl.
  destruct (get fields (lit "InstanceType")) as [[ | | | | [|c s] | | | | | ]|];
    reflexivity.
Qed.

Lemma add_items_store (raw_items items : list Any) (cat : dict) :
  Forall2 normalized_record raw_items items ->
  add_items cat raw_items = Ok (fold_left store items cat).
Proof.
  intros H. revert cat. induction H as [|r i rs its Hr Hrs IH]; intros cat; simpl.
  - reflexivity.
  - rewrite (@add_item_store cat r i Hr). simpl. apply IH.
Qed.

Lemma add_items_app (l1 l2 : list Any) (cat : dict) :
  add_items cat (l1 ++ l2) = (cat' <- add_items cat l1 ;; add_items cat' l2).
Proof.
  revert cat. induction l1 as [|r l1 IH]; intros cat; simpl; [reflexivity|].
  destruct (add_item cat r); simpl; auto.
Qed.

Lemma fetch_records (p : provider) (raw_items : list Any) (cat : dict) :
  records p = Ok raw_items ->
  fetch cat p =
  match add_items cat raw_items with
  | Ok cat' => Fetched cat' (outcome p)
  | Raise e => Uncaught e
  end.
Proof.
  revert raw_items cat.
  induction p as [ | exc | page rest IH]; intros raw_items cat H; simpl in H.
  - now injection H as <-.
  - now injection H as <-.
  - inv_bind H. inv_bind H. injection H as <-.
    simpl. rewrite E. simpl. rewrite add_items_app.
    destruct (add_items cat x) as [cat1|e]; simpl; [|reflexivity].
    now apply IH.
Qed.

(** A usable identifier of the raw record is the identifier of the
    normalized record. *)
Lemma identifier_normalized (raw_item item : Any) (id : pystr) :
  normalized_record raw_item item ->
  identifier raw_item = Some id -> identifier item = Some id.
Proof.
  intros [Hj _]. unfold identifier at 1.
  destruct raw_item as [ | | | | | | | | | raw_fields]; try discriminate.
  rewrite json_safe_dict in Hj. inv_bind Hj. injection Hj as <-.
  pose proof (json_safe_items_get raw_fields (lit "InstanceType") E) as Hg.
  destruct (get raw_fields (lit "InstanceType")) as [[ | | | | [|c s] | | | | | ]|];
    try discriminate.
  destruct Hg as (w & Hw & Hget). injection Hw as <-.
  intros [= <-]. unfold identifier. now rewrite Hget.
Qed.

Lemma identifiers_normalized (raw_items items : list Any) (ids : list pystr) :
  Forall2 normalized_record raw_items items ->
  List.map identifier raw_items = List.map Some ids ->
  List.map identifier items = List.map Some ids.
Proof.
  intros H. revert ids. induction H as [|r i rs its Hr Hrs IH]; intros [|id ids] Hm;
    simpl in Hm |- *; try discriminate; [reflexivity|].
  injection Hm as Hid Hm.
  rewrite (identifier_normalized Hr Hid). f_equal. auto.
Qed.

(** ** Last write wins *)

Lemma identifier_nonempty (item : Any) (id : pystr) :
  identifier item = Some id -> id <> [].
Proof.
  unfold identifier.
  destruct item as [ | | | | | | | | | fields]; try discriminate.
  destruct (get fields (lit "InstanceType")) as [[ | | | | [|c s] | | | | | ]|];
    try discriminate.
  now intros [= <-].
Qed.

Lemma get_store_same (cat : dict) (item : Any) (id : pystr) :
  identifier item = Some id -> get (store cat item) id = Some item.
Proof. unfold store. intros ->. apply get_setitem_same. Qed.

Lemma get_store_other (cat : dict) (item : Any) (id : pystr) :
  identifier item <> Some id -> get (store cat item) id = get cat id.
Proof.
  unfold store. destruct (identifier item) as [id'|]; [|reflexivity].
  intros Hne. apply get_setitem_other. congruence.
Qed.

Lemma get_fold_store_others (items : list Any) (cat : dict) (id : pystr) :
  (forall x, In x items -> identifier x <> Some id) ->
  get (fold_left store items cat) id = get cat id.
Proof.
  revert cat. induction items as [|i items IH]; intros cat H; simpl; [reflexivity|].
  rewrite IH by (intros x Hx; apply H; now right).
  apply get_store_other. apply H. now left.
Qed.

Lemma last_write_wins (before after : list Any) (item : Any) (cat : dict) (id : pystr) :
  identifier item = Some id ->
  (forall x, In x after -> identifier x <> Some id) ->
  get (fold_left store (before ++ item :: after) cat) id = Some item.
Proof.
  intros Hid Hafter. rewrite fold_left_app. simpl.
  rewrite get_fold_store_others by assumption.
  now apply get_store_same.
Qed.

(** ** Distinct identifiers: one entry per record *)

Lemma keys_fold_store (items : list Any) (ids : list pystr) (cat : dict) :
  List.map identifier items = List.map Some ids ->
  NoDup ids ->
  (forall id, In id ids -> ~ In id (keys cat)) ->
  fold_left store items cat = cat ++ combine ids items.
Proof.
  revert ids cat. induction items as [|i items IH]; intros [|id ids] cat Hm Hn Hfresh;
    simpl in *; try discriminate.
  - now rewrite app_nil_r.
  - injection Hm as Hi Hm. inversion Hn as [|? ? Hnotin Hn']; subst.
    unfold store at 2. rewrite Hi.
    rewrite setitem_fresh by (apply Hfresh; now left).
    rewrite (IH ids); auto.
    + now rewrite <- app_assoc.
    + intros id' Hid'. unfold keys. rewrite map_app, in_app_iff. simpl.
      intros [H | [H | []]].
      * apply (Hfresh id'); [now right | exact H].
      * congruence.
Qed.

Lemma combine_keys (ids : list pystr) (items : list Any) :
  List.length ids = List.length items -> keys (combine ids items) = ids.
Proof.
  revert items. induction ids as [|id ids IH]; intros [|i items] H;
    simpl in *; try discriminate; [reflexivity|].
  f_equal. apply IH. congruence.
Qed.

Lemma keys_sorted_items_strict (d : dict) :
  distinct_keys d -> strictly_ascending (keys (sorted_items d)).
Proof.
  intros Hd. unfold keys, sorted_items.
  apply ascending_strict; [apply sort_by_ascending|].
  eapply Permutation_NoDup; [|exact Hd].
  symmetry. apply Permutation_map, sort_by_perm.
Qed.

Lemma get_sorted_items (d : dict) (k : pystr) :
  distinct_keys d -> get (sorted_items d) k = get d k.
Proof.
  intros Hd.
  assert (Hp : Permutation (sorted_items d) d) by apply sort_by_perm.
  assert (Hd' : distinct_keys (sorted_items d)).
  { eapply Permutation_NoDup; [|exact Hd]. symmetry. now apply Permutation_map. }
  destruct (get d k) as [v|] eqn:E.
  - apply In_get; [assumption|]. eapply Permutation_in; [symmetry; exact Hp|].
    now apply get_In.
  - apply get_None. apply get_None in E. intros Hin. apply E.
    eapply Permutation_in; [|exact Hin]. now apply Permutation_map.
Qed.

(** Every file a run writes holds the document of the catalog fetched. *)
Lemma main_write (a : args) (clock : datetime) (p : provider)
      (cat : dict) (failure : option pystr) (path text : pystr) :
  fetch [] p = Fetched cat failure ->
  In (write_text path text) (fs_calls (main a clock p)) ->
  exists body,
    dumps (payload (region a) clock (sorted_items cat)) = Ok body /\
    text = body ++ [10%N] /\ path = output a.
Proof.
  intros Hf Hin.
  pose proof (@fetch_ok _ _ _ _ Hf catalog_ok_nil) as [Hd Hc].
  assert (Has : forall printed,
             In (write_text path text) (fs_calls (assemble a clock cat printed)) ->
             exists body,
               dumps (payload (region a) clock (sorted_items cat)) = Ok body /\
               text = body ++ [10%N] /\ path = output a).
  { intros printed. unfold assemble.
    destruct (_ && _); [simpl; tauto|].
    rewrite (sorted_instance_types_spec Hd).
    destruct (dumps _) as [body|e]; simpl.
    - intros [H | [H | []]]; [discriminate|].
      injection H as <- <-. eauto.
    - intros [H | []]. discriminate. }
  unfold main in Hin. rewrite Hf in Hin.
  destruct failure as [exc|]; [|eauto].
  destruct (negb (allow_empty a)); [simpl in Hin; tauto | eauto].
Qed.

(* ===================================================================== *)
(** * The catalog laws *)
(* ===================================================================== *)

(** C1. Dedup/sort law.  For a run over records that normalize to dicts:
    every file the run writes holds the sorted catalog; when the N records
    carry unique non-empty identifiers (which normalization keeps), the
    persisted instance_types mapping has exactly N entries -- the N
    records under their identifiers -- with keys in strictly ascending
    lexicographic order;
    and when records share an identifier, the entry persisted under it is
    the last of them (last write wins). *)
Theorem dedup_sort_law
        (a : args) (clock : datetime) (p : provider) (raw_items items : list Any) :
  records p = Ok raw_items ->
  Forall2 normalized_record raw_items items ->
  exists instance_types,
    fetch [] p = Fetched instance_types (outcome p) /\
    sorted_instance_types instance_types = Ok (sorted_items instance_types) /\
    (forall path text,
        In (write_text path text) (fs_calls (main a clock p)) ->
        exists body,
          dumps (payload (region a) clock (sorted_items instance_types)) = Ok body /\
          text = body ++ [10%N]) /\
    strictly_ascending (keys (sorted_items instance_types)) /\
    (forall ids,
        List.map identifier raw_items = List.map Some ids ->
        List.map identifier items = List.map Some ids) /\
    (forall ids,
        List.map identifier items = List.map Some ids ->
        NoDup ids ->
        List.length (sorted_items instance_types) = List.length raw_items /\
        forall id item,
          In (id, item) (sorted_items instance_types) <-> In (id, item) (combine ids items)) /\
    (forall before item after id,
        items = before ++ item :: after ->
        identifier item = Some id ->
        (forall x, In x after -> identifier x <> Some id) ->
        get (sorted_items instance_types) id = Some item).
Proof.
  intros Hrec Hnorm.
  pose proof (@fetch_records p raw_items [] Hrec) as Hf.
  rewrite (@add_items_store raw_items items [] Hnorm) in Hf.
  set (cat := fold_left store items []) in *.
  pose proof (@fetch_ok _ _ _ _ Hf catalog_ok_nil) as [Hd Hc].
  exists cat. split; [exact Hf|].
  split; [now apply sorted_instance_types_spec|].
  split.
  { intros path text Hin.
    destruct (@main_write a clock p _ _ path text Hf Hin) as (body & Hb & Ht & _). eauto. }
  split; [now apply keys_sorted_items_strict|].
  split; [intros ids; now apply identifiers_normalized|].
  split.
  - intros ids Hm Hn.
    assert (Hcat : cat = combine ids items).
    { unfold cat. rewrite (@keys_fold_store items ids [] Hm Hn); [reflexivity|].
      simpl. tauto. }
    assert (Hlen : List.length ids = List.length items).
    { rewrite <- (length_map Some ids), <- Hm. apply length_map. }
    split.
    + unfold sorted_items. rewrite sort_by_length, Hcat, length_combine, Hlen.
      rewrite Nat.min_id. symmetry. eapply Forall2_length; eauto.
    + intros id item. rewrite <- Hcat. split; apply Permutation_in.
      * apply sort_by_perm.
      * symmetry. apply sort_by_perm.
  - intros before item after id -> Hid Hafter.
    rewrite get_sorted_items by assumption.
    now apply last_write_wins.
Qed.

Lemma app_assoc_cons (A : Type) (x : A) (l1 l2 : list A) :
  (x :: l1) ++ l2 = x :: (l1 ++ l2).
Proof. reflexivity. Qed.

Lemma dumps_empty_catalog (region : pystr) (clock : datetime) :
  (body <- dumps (payload region clock []) ;; Ok (body ++ [10%N]))
  = Ok (empty_catalog_file region clock).
Proof.
  unfold dumps, empty_catalog_file, payload. fold (generated_at clock).
  generalize (generated_at clock) as g. intros g.
  cbn -[encode_basestring_ascii]. unfold member.
  cbn -[encode_basestring_ascii].
  repeat (rewrite <- ?app_assoc; rewrite <- ?app_comm_cons; cbn -[encode_basestring_ascii]).
  reflexivity.
Qed.

(** C9. If the fetch ends cleanly with nothing collected and allow-empty
    is set, the run is a success: it writes the document, whose
    instance_types mapping is empty and whose instance_type_count is 0,
    reports the count, and exits with status 0. *)
Theorem empty_result_with_allow_empty_succeeds
        (a : args) (clock : datetime) (p : provider) :
  fetch [] p = Fetched [] None ->
  allow_empty a = true ->
  main a clock p =
    mkrun (Returned 0)
          [msg_wrote a 0]
          [mkdir_parent (output a);
           write_text (output a) (empty_catalog_file (region a) clock)] /\
  exit_status (main a clock p) = 0 /\
  lookup (payload (region a) clock []) ["instance_types"%string] = Some (PyDict []) /\
  lookup (payload (region a) clock []) ["stats"; "instance_type_count"]%string
    = Some (PyInt 0).
Proof.
  intros Hf Hflag.
  assert (Hmain : main a clock p =
    mkrun (Returned 0) [msg_wrote a 0]
          [mkdir_parent (output a);
           write_text (output a) (empty_catalog_file (region a) clock)]).
  { unfold main. rewrite Hf. unfold assemble. rewrite Hflag.
    cbn [negb andb sorted_instance_types sorted keys List.map sort_by fold_right
         dict_from_keys].
    pose proof (dumps_empty_catalog (region a) clock) as Hd.
    destruct (dumps (payload (region a) clock [])) as [body|e]; simpl in Hd;
      [|discriminate].
    injection Hd as ->. reflexivity. }
  split; [exact Hmain|]. split; [now rewrite Hmain|].
  split; reflexivity.
Qed.

(* ===================================================================== *)
(** * Malformed records *)
(* ===================================================================== *)

(** C7, amended.  A fetched record that normalizes to a mapping whose
    identifier field -- read from the normalized record, as the loop
    does -- is missing, null, not a string, or the empty string is left
    out of the catalog without any error, and leaving it out changes
    nothing else: the loop ends with the very catalog it would have built
    had the record not been there. *)
Theorem malformed_record_is_skipped
        (instance_types : dict) (raw_item : Any) (fields : dict) :
  json_safe raw_item = Ok (PyDict fields) ->
  get fields (lit "InstanceType") = None
  \/ get fields (lit "InstanceType") = Some PyNone
  \/ (exists v, get fields (lit "InstanceType") = Some v /\ forall s, v <> PyStr s)
  \/ get fields (lit "InstanceType") = Some (PyStr []) ->
  add_item instance_types raw_item = Ok instance_types /\
  forall before after cat,
    add_items cat (before ++ raw_item :: after) = add_items cat (before ++ after).
Proof.
  intros Hj Hid.
  assert (Hskip : forall cat, add_item cat raw_item = Ok cat).
  { intros cat. unfold add_item. rewrite Hj. simpl.
    destruct Hid as [-> | [-> | [(v & -> & Hv) | ->]]]; try reflexivity.
    destruct v; try reflexivity. now destruct (Hv s). }
  split; [apply Hskip|].
  intros before after cat. rewrite !add_items_app.
  destruct (add_items cat before) as [cat1|e]; simpl; [|reflexivity].
  now rewrite Hskip.
Qed.

(** The same on the raw record, for an identifier that [json_safe] does
    not turn into a str: a record whose raw identifier is missing, None, a
    bool, an int, a float, a Decimal, a list, a dict or the empty str is
    skipped.  (A datetime or a date becomes a str and is kept.) *)
Lemma raw_identifier_is_skipped (cat : dict) (raw_fields fields : dict) :
  json_safe (PyDict raw_fields) = Ok (PyDict fields) ->
  match get raw_fields (lit "InstanceType") with
  | Some (PyStr (_ :: _)) | Some (PyDatetime _) | Some (PyDate _) => False
  | _ => True
  end ->
  add_item cat (PyDict raw_fields) = Ok cat.
Proof.
  intros Hj Hraw. rewrite json_safe_dict in Hj. inv_bind Hj. injection Hj as <-.
  pose proof (json_safe_items_get raw_fields (lit "InstanceType") E) as Hg.
  unfold add_item. rewrite json_safe_dict, E. cbn [bind].
  destruct (get raw_fields (lit "InstanceType")) as [v|]; [|now rewrite Hg].
  destruct Hg as (w & Hw & ->).
  destruct v as [ | b | n | f | [|c s] | t | d | d | l | l]; try contradiction;
    try (injection Hw as <-; reflexivity).
  - rewrite json_safe_decimal_eq in Hw. inv_bind Hw.
    destruct (is_zero x0); inv_bind Hw; injection Hw as <-; reflexivity.
  - rewrite json_safe_list_eq in Hw. inv_bind Hw. injection Hw as <-. reflexivity.
  - rewrite json_safe_dict in Hw. inv_bind Hw. injection Hw as <-. reflexivity.
Qed.

(* ===================================================================== *)
(** * Facts: sort_keys *)
(* ===================================================================== *)

Lemma canonical_dict (items : dict) :
  canonical (PyDict items) = PyDict (sorted_items (List.map canonical_item items)).
Proof. reflexivity. Qed.

Lemma keys_canonical_items (items : dict) :
  keys (List.map canonical_item items) = keys items.
Proof. unfold keys. rewrite map_map. reflexivity. Qed.

(** The canonical form has its keys in order everywhere. *)
Lemma canonical_keys_sorted (o : Any) : keys_sorted (canonical o).
Proof.
  induction o as [ | b | n | f | s | t | d | d | items IH | items IH]
    using Any_induction; try (now apply keys_sorted_scalar).
  - simpl. apply keys_sorted_list. now apply Forall_map.
  - rewrite canonical_dict. apply keys_sorted_dict.
    + apply sort_by_ascending.
    + eapply Permutation_Forall; [symmetry; apply sort_by_perm|].
      apply Forall_map. exact IH.
Qed.

(** It is the same document. *)
Lemma canonical_same_content (o : Any) : same_content o (canonical o).
Proof.
  induction o as [ | b | n | f | s | t | d | d | items IH | items IH]
    using Any_induction; try (now apply same_scalar).
  - simpl. apply same_list. induction IH; simpl; constructor; auto.
  - rewrite canonical_dict.
    apply same_dict with (d' := List.map canonical_item items).
    + induction IH; simpl; constructor; auto.
    + symmetry. apply sort_by_perm.
Qed.

(** Documents that differ in insertion order only have one canonical
    form. *)
Lemma canonical_unique (o : Any) :
  distinct_everywhere o ->
  forall o', same_content o o' -> canonical o = canonical o'.
Proof.
  induction o as [ | b | n | f | s | t | d | d | items IH | items IH]
    using Any_induction; intros Hd o' Hs;
    try (inversion Hs; subst; reflexivity).
  - (* list *)
    inversion Hs as [? Hsc | l l' Hall | ]; subst; [discriminate|].
    inversion Hd as [? Hsc | ? Hdl | ]; subst; [discriminate|].
    simpl. f_equal.
    clear Hs Hd. revert l' Hall.
    induction IH as [|x l Hx Hl IHl]; intros l' Hall;
      inversion Hall; subst; simpl; [reflexivity|].
    inversion Hdl; subst. f_equal; auto.
  - (* dict *)
    inversion Hs as [? Hsc | | d0 d' d'' Hall Hp]; subst; [discriminate|].
    inversion Hd as [? Hsc | | ? Hk Hdl]; subst; [discriminate|].
    rewrite !canonical_dict. f_equal.
    assert (Hmap : List.map canonical_item items = List.map canonical_item d').
    { clear Hs Hd Hp Hk. revert d' Hall.
      induction IH as [|x l Hx Hl IHl]; intros d' Hall;
        inversion Hall as [|? y ? ? [Hfst Hsnd] Hrest]; subst; simpl; [reflexivity|].
      inversion Hdl; subst. f_equal; [|auto].
      unfold canonical_item. rewrite Hfst. f_equal. auto. }
    rewrite Hmap. apply sort_by_unique.
    + now apply Permutation_map.
    + rewrite <- Hmap. fold (keys (List.map canonical_item items)).
      rewrite keys_canonical_items. exact Hk.
Qed.

(* ===================================================================== *)
(** * Facts: the encoder sorts, and nothing else *)
(* ===================================================================== *)

Lemma render_list_eq (level : nat) (x : Any) (l : list Any) :
  render level (PyList (x :: l)) =
  (chunks <- render_each (S level) (x :: l) ;; Ok (array_text level chunks)).
Proof. reflexivity. Qed.

Lemma render_dict_eq (level : nat) (items : dict) :
  items <> [] ->
  render level (PyDict items) =
  (members <- render_members (S level) items ;; Ok (object_text level members)).
Proof. destruct items as [|[k x] l]; [congruence | reflexivity]. Qed.

(** TypeError is the only exception of the encoder. *)
Lemma render_raises (o : Any) (level : nat) (e : exn) :
  render level o = Raise e -> e = TypeError.
Proof.
  revert level.
  induction o as [ | b | n | f | s | t | d | d | items IH | items IH]
    using Any_induction; intros level H;
    try (simpl in H; discriminate); try (simpl in H; congruence).
  - destruct b; discriminate.
  - destruct items as [|x l]; [discriminate|].
    rewrite render_list_eq in H.
    assert (Hall : forall lv, render_each lv (x :: l) = Raise e -> e = TypeError).
    { clear H. intros lv. induction IH as [|y l' Hy Hl IHl]; simpl; [discriminate|].
      destruct (render lv y) eqn:Ey; simpl; [|intros [= <-]; eauto].
      destruct (render_each lv l') eqn:El; simpl; [discriminate|].
      intros [= <-]. auto. }
    destruct (render_each (S level) (x :: l)) eqn:E; simpl in H; [discriminate|].
    injection H as <-. eauto.
  - destruct items as [|x l]; [discriminate|].
    rewrite render_dict_eq in H by discriminate.
    assert (Hall : forall lv, render_members lv (x :: l) = Raise e -> e = TypeError).
    { clear H. intros lv. induction IH as [|[k y] l' Hy Hl IHl]; simpl; [discriminate|].
      simpl in Hy.
      destruct (render lv y) eqn:Ey; simpl; [|intros [= <-]; eauto].
      destruct (render_members lv l') eqn:El; simpl; [discriminate|].
      intros [= <-]. auto. }
    destruct (render_members (S level) (x :: l)) eqn:E; simpl in H; [discriminate|].
    injection H as <-. eauto.
Qed.

Lemma render_members_raises (l : dict) (level : nat) (e : exn) :
  render_members level l = Raise e -> e = TypeError.
Proof.
  induction l as [|[k y] l IH]; simpl; [discriminate|].
  destruct (render level y) eqn:Ey; simpl.
  - destruct (render_members level l) eqn:El; simpl; [discriminate|].
    intros [= <-]. auto.
  - intros [= <-]. eapply render_raises; eauto.
Qed.

(** Encoding the members and sorting them commute. *)
Lemma render_members_insert (level : nat) (k : pystr) (x : Any) (l : dict) :
  render_members level (insert_by fst (k, x) l) =
  (c <- render level x ;;
   m <- render_members level l ;;
   Ok (insert_by fst (k, c) m)).
Proof.
  induction l as [|[k' x'] t IH]; simpl.
  - destruct (render level x); reflexivity.
  - destruct (str_leb k k') eqn:Ek; simpl.
    + destruct (render level x); simpl; [|reflexivity].
      destruct (render level x'); simpl; [|reflexivity].
      destruct (render_members level t); simpl; [|reflexivity].
      now rewrite Ek.
    + fold (render_members level (insert_by fst (k, x) t)). rewrite IH.
      fold (render_members level t).
      destruct (render level x') eqn:Ex'; simpl;
        destruct (render level x) eqn:Ex; simpl; try reflexivity.
      * destruct (render_members level t); simpl; [|reflexivity].
        now rewrite Ek.
      * apply render_raises in Ex', Ex. congruence.
Qed.

Lemma render_members_sorted (level : nat) (l : dict) :
  render_members level (sorted_items l) =
  (m <- render_members level l ;; Ok (sorted_items m)).
Proof.
  unfold sorted_items.
  induction l as [|[k x] l IH]; simpl; [reflexivity|].
  fold (render_members level l).
  rewrite render_members_insert, IH.
  destruct (render level x); simpl; [|reflexivity].
  destruct (render_members level l); reflexivity.
Qed.

(** [sort_keys] amounts to encoding the canonical form as it stands. *)
Lemma encode_canonical (o : Any) (level : nat) :
  encode level o = render level (canonical o).
Proof.
  revert level.
  induction o as [ | b | n | f | s | t | d | d | items IH | items IH]
    using Any_induction; intros level; try reflexivity.
  - (* list *)
    destruct items as [|x l]; [reflexivity|].
    rewrite encode_list_eq.
    change (canonical (PyList (x :: l)))
      with (PyList (canonical x :: List.map canonical l)).
    rewrite render_list_eq. f_equal.
    change (canonical x :: List.map canonical l) with (List.map canonical (x :: l)).
    generalize (S level) as lv. intros lv.
    induction IH as [|y l' Hy Hl IHl]; simpl; [reflexivity|].
    rewrite Hy. fold (encode_each lv l'). fold (render_each lv (List.map canonical l')).
    now rewrite IHl.
  - (* dict *)
    destruct items as [|kv l]; [reflexivity|].
    rewrite encode_dict_eq, canonical_dict.
    rewrite render_dict_eq.
    2:{ intros Hnil. apply (f_equal (@List.length _)) in Hnil.
        unfold sorted_items in Hnil. rewrite sort_by_length in Hnil. discriminate. }
    rewrite render_members_sorted.
    assert (E : forall lv, render_members lv (List.map canonical_item (kv :: l))
                           = encode_members lv (kv :: l)).
    { intros lv. induction IH as [|[k y] l' Hy Hl IHl]; simpl; [reflexivity|].
      simpl in Hy. rewrite <- Hy.
      fold (encode_members lv l').
      fold (render_members lv (List.map canonical_item l')).
      now rewrite IHl. }
    rewrite E.
    destruct (encode_members (S level) (kv :: l)); reflexivity.
Qed.

(** The text of a dict ends with its closing brace. *)
Lemma encode_dict_closes (level : nat) (items : dict) (body : pystr) :
  encode level (PyDict items) = Ok body -> exists b, body = b ++ lit "}".
Proof.
  destruct items as [|kv l].
  - intros [= <-]. exists (lit "{"). reflexivity.
  - rewrite encode_dict_eq. intros H. inv_bind H. injection H as <-.
    unfold object_text. eexists. rewrite !app_assoc. reflexivity.
Qed.

(** Equal documents, equal bytes. *)
Lemma dumps_deterministic (doc doc' : Any) :
  distinct_everywhere doc -> same_content doc doc' -> dumps doc' = dumps doc.
Proof.
  intros Hd Hs. unfold dumps. rewrite !encode_canonical.
  now rewrite (canonical_unique Hd Hs).
Qed.

(* ===================================================================== *)
(** * The persisted document *)
(* ===================================================================== *)

(** C8. Every file a run writes is the serialization of the assembled
    document.  The document has exactly the fields generated_at,
    query.source_region (the region of the run), stats.instance_type_count
    (the size of the catalog), stats.offering_count (0), instance_types
    (the catalog in key order) and offerings (the empty list).  The text
    has the keys of every mapping, at every nesting level, in sorted
    order, and ends with the closing brace and one newline.  It is
    determined by the content of the document: the order in which keys
    were inserted, in the catalog or in any mapping below, does not show
    in the bytes. *)
Theorem persisted_document_is_sorted_and_deterministic
        (a : args) (clock : datetime) (p : provider)
        (instance_types : dict) (failure : option pystr) (path data : pystr) :
  fetch [] p = Fetched instance_types failure ->
  In (write_text path data) (fs_calls (main a clock p)) ->
  let doc := payload (region a) clock (sorted_items instance_types) in
  (exists fields,
      doc = PyDict fields /\
      keys fields = [lit "generated_at"; lit "query"; lit "stats";
                     lit "instance_types"; lit "offerings"]) /\
  lookup doc ["generated_at"%string] = Some (PyStr (generated_at clock)) /\
  lookup doc ["query"%string]
    = Some (PyDict [(lit "source_region", PyStr (region a))]) /\
  lookup doc ["stats"%string]
    = Some (PyDict [(lit "instance_type_count", PyInt (len instance_types));
                    (lit "offering_count", PyInt 0)]) /\
  lookup doc ["instance_types"%string] = Some (PyDict (sorted_items instance_types)) /\
  Permutation (sorted_items instance_types) instance_types /\
  strictly_ascending (keys (sorted_items instance_types)) /\
  lookup doc ["offerings"%string] = Some (PyList []) /\
  exists body,
    dumps doc = Ok body /\
    data = body ++ LF /\
    (exists b, body = b ++ lit "}") /\
    render 0 (canonical doc) = Ok body /\
    keys_sorted (canonical doc) /\
    same_content doc (canonical doc) /\
    (forall doc', distinct_everywhere doc -> same_content doc doc' ->
                  dumps doc' = Ok body) /\
    (forall other, Permutation instance_types other ->
                   payload (region a) clock (sorted_items other) = doc).
Proof.
  intros Hf Hin doc.
  pose proof (@fetch_ok _ _ _ _ Hf catalog_ok_nil) as [Hd Hc].
  destruct (@main_write a clock p _ _ path data Hf Hin) as (body & Hbody & Hdata & _).
  split; [eexists; split; reflexivity|].
  split; [reflexivity|]. split; [reflexivity|].
  split; [unfold doc; simpl; now rewrite len_sorted_items|].
  split; [reflexivity|].
  split; [apply sort_by_perm|].
  split; [now apply keys_sorted_items_strict|].
  split; [reflexivity|].
  exists body. fold doc in Hbody.
  split; [exact Hbody|]. split; [exact Hdata|].
  split; [eapply encode_dict_closes; exact Hbody|].
  split; [unfold dumps in Hbody; now rewrite <- encode_canonical|].
  split; [apply canonical_keys_sorted|].
  split; [apply canonical_same_content|].
  split.
  - intros doc' Hde Hs. now rewrite (dumps_deterministic Hde Hs).
  - intros other Hp. unfold doc, sorted_items.
    now rewrite (sort_by_unique fst Hp Hd).
Qed.

(* ===================================================================== *)
(** * Facts: the calendar *)
(* ===================================================================== *)

Lemma all_from_spec (check : Z -> bool) (count : nat) (r : Z) :
  all_from check count r = true ->
  forall k, r <= k < r + Z.of_nat count -> check k = true.
Proof.
  revert r. induction count as [|c IH]; intros r H k Hk; [lia|].
  simpl in H. apply andb_prop in H. destruct H as [Hr Hrest].
  destruct (Z.eq_dec k r) as [-> | Hne]; [assumption|].
  apply (IH (r + 1)); [assumption | lia].
Qed.

Lemma first_cycle_ok : all_from cycle_day_ok (Z.to_nat _DI400Y) 0 = true.
Proof. vm_cast_no_check (eq_refl true). Qed.

Lemma cycle_day (r : Z) : 0 <= r < _DI400Y -> cycle_day_ok r = true.
Proof.
  intros Hr. apply (@all_from_spec cycle_day_ok (Z.to_nat _DI400Y) 0 first_cycle_ok).
  rewrite Z2Nat.id by (unfold _DI400Y; lia). lia.
Qed.

(** Leap years and day counts repeat every 400 years. *)
Lemma is_leap_shift (q y : Z) : _is_leap (400 * q + y) = _is_leap y.
Proof.
  unfold _is_leap.
  replace ((400 * q + y) mod 4) with (y mod 4)
    by (replace (400 * q + y) with (y + (100 * q) * 4) by ring; now rewrite Z.mod_add).
  replace ((400 * q + y) mod 100) with (y mod 100)
    by (replace (400 * q + y) with (y + (4 * q) * 100) by ring; now rewrite Z.mod_add).
  replace ((400 * q + y) mod 400) with (y mod 400)
    by (replace (400 * q + y) with (y + q * 400) by ring; now rewrite Z.mod_add).
  reflexivity.
Qed.

Lemma days_before_year_shift (q y : Z) :
  _days_before_year (400 * q + y) = _DI400Y * q + _days_before_year y.
Proof.
  unfold _days_before_year, _DI400Y. cbv zeta.
  replace ((400 * q + y - 1) / 4) with ((y - 1) / 4 + 100 * q)
    by (replace (400 * q + y - 1) with (y - 1 + (100 * q) * 4) by ring;
        now rewrite Z.div_add).
  replace ((400 * q + y - 1) / 100) with ((y - 1) / 100 + 4 * q)
    by (replace (400 * q + y - 1) with (y - 1 + (4 * q) * 100) by ring;
        now rewrite Z.div_add).
  replace ((400 * q + y - 1) / 400) with ((y - 1) / 400 + q)
    by (replace (400 * q + y - 1) with (y - 1 + q * 400) by ring;
        now rewrite Z.div_add).
  ring.
Qed.

Lemma ymd2ord_shift (q y m d : Z) :
  _ymd2ord (400 * q + y) m d = _DI400Y * q + _ymd2ord y m d.
Proof.
  unfold _ymd2ord, _days_before_month.
  rewrite days_before_year_shift, is_leap_shift. ring.
Qed.

Lemma days_in_month_shift (q y m : Z) :
  _days_in_month (400 * q + y) m = _days_in_month y m.
Proof. unfold _days_in_month. now rewrite is_leap_shift. Qed.

(** [_ord2ymd] works cycle by cycle. *)
Lemma ord2ymd_shift (q r : Z) :
  0 <= r < _DI400Y ->
  _ord2ymd (_DI400Y * q + r + 1) =
  let '(y, m, d) := _ord2ymd (r + 1) in (400 * q + y, m, d).
Proof.
  intros Hr. unfold _ord2ymd. cbv zeta.
  replace (_DI400Y * q + r + 1 - 1) with (r + q * _DI400Y) by ring.
  replace (r + 1 - 1) with r by ring.
  rewrite Z.div_add, Z.mod_add by (unfold _DI400Y; lia).
  rewrite (Z.div_small r _DI400Y), (Z.mod_small r _DI400Y) by lia.
  set (n100 := r / _DI100Y).
  set (n1 := r mod _DI100Y).
  set (n4 := n1 / _DI4Y).
  set (n2 := n1 mod _DI4Y).
  set (n3 := n2 / 365).
  set (n := n2 mod 365).
  destruct ((n3 =? 4) || (n100 =? 4)).
  - cbv beta iota. do 2 f_equal. ring.
  - set (leap := (n3 =? 3) && (negb (n4 =? 24) || (n100 =? 3))).
    set (month := Z.shiftr (n + 50) 5).
    destruct (n <? _); cbv beta iota; do 2 f_equal; ring.
Qed.

(** The conversion of an ordinal to a date: it inverts [_ymd2ord] and
    yields a valid date. *)
Lemma ord2ymd_spec (n : Z) :
  1 <= n <= _MAXORDINAL ->
  let '(y, m, d) := _ord2ymd n in
  _ymd2ord y m d = n /\ 1 <= y <= 9999 /\ 1 <= m <= 12 /\
  1 <= d <= _days_in_month y m.
Proof.
  intros Hn.
  set (q := (n - 1) / _DI400Y). set (r := (n - 1) mod _DI400Y).
  assert (Hr : 0 <= r < _DI400Y) by (apply Z.mod_pos_bound; unfold _DI400Y; lia).
  assert (En : n = _DI400Y * q + r + 1).
  { pose proof (Z.div_mod (n - 1) _DI400Y) as H. fold q r in H.
    unfold _DI400Y in H |- *. lia. }
  assert (Hq : 0 <= q).
  { apply Z.div_pos; unfold _DI400Y; lia. }
  clearbody q r.
  rewrite En, ord2ymd_shift by assumption.
  pose proof (@cycle_day r Hr) as Hc. unfold cycle_day_ok in Hc.
  destruct (_ord2ymd (r + 1)) as [[y m] d].
  rewrite !andb_true_iff, Z.eqb_eq, !Z.leb_le in Hc.
  destruct Hc as ((((((Hc & Hy1) & Hy2) & Hm1) & Hm2) & Hd1) & Hd2).
  rewrite ymd2ord_shift, days_in_month_shift, Hc.
  repeat split; try lia.
  (* the year is at most 9999: later years start after _MAXORDINAL *)
  destruct (Z_le_gt_dec (400 * q + y) 9999) as [Hy | Hy]; [assumption | exfalso].
  assert (Hm0 : 0 <= _days_before_month y m).
  { unfold _days_before_month.
    assert (Hnth : 0 <= nth (Z.to_nat m) _DAYS_BEFORE_MONTH 0).
    { assert (Hm : m = 1 \/ m = 2 \/ m = 3 \/ m = 4 \/ m = 5 \/ m = 6 \/ m = 7 \/
                     m = 8 \/ m = 9 \/ m = 10 \/ m = 11 \/ m = 12) by lia.
      repeat (destruct Hm as [-> | Hm]; [simpl; lia|]). subst; simpl; lia. }
    destruct (_ && _); lia. }
  assert (Hby : _days_before_year (400 * q + y) >= _MAXORDINAL).
  { unfold _days_before_year, _MAXORDINAL. cbv zeta.
    Z.to_euclidean_division_equations. lia. }
  rewrite days_before_year_shift in Hby.
  unfold _ymd2ord in Hc. unfold _DI400Y, _MAXORDINAL in Hby, Hr, En, Hn. lia.
Qed.

(* ===================================================================== *)
(** * Facts: fixed-width decimal fields *)
(* ===================================================================== *)

Lemma length_low_digits (w : nat) (n : N) : List.length (low_digits w n) = w.
Proof.
  revert n. induction w as [|k IH]; intros n; cbn [low_digits]; [reflexivity|].
  rewrite length_app, IH. simpl. lia.
Qed.

Lemma low_digits_chars (w : nat) (n : N) (c : N) :
  In c (low_digits w n) -> (48 <= c <= 57)%N.
Proof.
  revert n. induction w as [|k IH]; intros n; cbn [low_digits]; [simpl; tauto|].
  rewrite in_app_iff. intros [H | [<- | []]]; [eauto|].
  assert (Hm : (n mod 10 < 10)%N) by (apply N.mod_upper_bound; discriminate).
  revert Hm. generalize (n mod 10)%N. intros m Hm. lia.
Qed.

Lemma ndigits_fuel_le (fuel w : nat) (n : N) :
  (1 <= w)%nat -> (n < 10 ^ N.of_nat w)%N -> (ndigits_fuel fuel n <= w)%nat.
Proof.
  revert w n. induction fuel as [|f IH]; intros w n Hw Hn; simpl; [assumption|].
  destruct (N.ltb_spec n 10) as [Hlt | Hge]; [assumption|].
  destruct w as [|w]; [lia|].
  destruct w as [|w].
  { change (10 ^ N.of_nat 1)%N with 10%N in Hn. lia. }
  apply le_n_S. apply IH; [lia|].
  rewrite Nat2N.inj_succ, N.pow_succ_r' in Hn.
  apply N.Div0.div_lt_upper_bound. exact Hn.
Qed.

Lemma fmt_d_small (w : nat) (z : Z) :
  (1 <= w)%nat -> 0 <= z < 10 ^ Z.of_nat w ->
  fmt_d w z = low_digits w (Z.to_N z).
Proof.
  intros Hw Hz.
  assert (Hn : (Z.to_N z < 10 ^ N.of_nat w)%N).
  { apply N2Z.inj_lt. rewrite Z2N.id by lia.
    rewrite N2Z.inj_pow, nat_N_Z. simpl. lia. }
  assert (Hmax : Nat.max w (ndigits (Z.to_N z)) = w).
  { apply Nat.max_l. now apply ndigits_fuel_le. }
  unfold fmt_d. destruct z as [|p|p]; [now rewrite Hmax | now rewrite Hmax | lia].
Qed.

Lemma digits_value_app (l1 l2 : pystr) (acc : N) :
  digits_value acc (l1 ++ l2) =
  match digits_value acc l1 with
  | Some a => digits_value a l2
  | None => None
  end.
Proof.
  revert acc. induction l1 as [|c l1 IH]; intros acc; simpl; [reflexivity|].
  destruct (_ && _); auto.
Qed.

Lemma digits_value_low_digits (w : nat) (n acc : N) :
  digits_value acc (low_digits w n)
  = Some (acc * 10 ^ N.of_nat w + n mod 10 ^ N.of_nat w)%N.
Proof.
  revert n acc. induction w as [|k IH]; intros n acc.
  - simpl. rewrite N.mod_1_r. f_equal. lia.
  - cbn [low_digits]. rewrite digits_value_app, IH. cbn [digits_value].
    assert (Hm : (n mod 10 < 10)%N) by (apply N.mod_upper_bound; discriminate).
    rewrite Nat2N.inj_succ, N.pow_succ_r'.
    rewrite (N.Div0.mod_mul_r n 10 (10 ^ N.of_nat k)).
    revert Hm. generalize (n mod 10)%N ((n / 10) mod 10 ^ N.of_nat k)%N
                          (10 ^ N.of_nat k)%N.
    intros m r p Hm.
    replace ((48 <=? 48 + m) && (48 + m <=? 57))%N with true.
    2:{ symmetry. apply andb_true_intro. split; apply N.leb_le; lia. }
    f_equal. lia.
Qed.

Lemma firstn_exact (A : Type) (l r : list A) : firstn (List.length l) (l ++ r) = l.
Proof. induction l as [|x l IH]; simpl; [now destruct r | now rewrite IH]. Qed.

Lemma skipn_exact (A : Type) (l r : list A) : skipn (List.length l) (l ++ r) = r.
Proof. induction l as [|x l IH]; simpl; auto. Qed.

Lemma parse_field_fmt (w : nat) (z : Z) (rest : pystr) :
  (1 <= w)%nat -> 0 <= z < 10 ^ Z.of_nat w ->
  parse_field w (fmt_d w z ++ rest) = Some (z, rest).
Proof.
  intros Hw Hz. rewrite fmt_d_small by assumption.
  assert (Hn : (Z.to_N z < 10 ^ N.of_nat w)%N).
  { apply N2Z.inj_lt. rewrite Z2N.id by lia.
    rewrite N2Z.inj_pow, nat_N_Z. simpl. lia. }
  pose proof (length_low_digits w (Z.to_N z)) as Hlen.
  pose proof (digits_value_low_digits w (Z.to_N z) 0) as Hval.
  remember (low_digits w (Z.to_N z)) as ld eqn:El.
  unfold parse_field. rewrite length_app.
  replace (Nat.leb w (List.length ld + List.length rest)) with true
    by (symmetry; apply Nat.leb_le; lia).
  rewrite <- Hlen, firstn_exact, skipn_exact.
  unfold parse_digits. destruct ld as [|c l]; [simpl in Hlen; lia|].
  rewrite Hval. simpl.
  rewrite N.mod_small by assumption. now rewrite Z2N.id by lia.
Qed.

Lemma fmt_d_no_plus (w : nat) (z : Z) :
  (1 <= w)%nat -> 0 <= z < 10 ^ Z.of_nat w -> ~ In 43%N (fmt_d w z).
Proof.
  intros Hw Hz Hin. rewrite fmt_d_small in Hin by assumption.
  apply low_digits_chars in Hin. lia.
Qed.

(** [replace] turns the one ["+00:00"] at the end into ["Z"]. *)
Lemma replace_utc_suffix (s : pystr) :
  ~ In 43%N s ->
  replace (lit "+00:00") (lit "Z") (s ++ lit "+00:00") = s ++ lit "Z".
Proof.
  change (replace (lit "+00:00") (lit "Z") (s ++ lit "+00:00"))
    with (replace_from (lit "+00:00") (lit "Z") 0 (s ++ lit "+00:00")).
  induction s as [|c s IH]; intros Hn; [reflexivity|].
  assert (Hc : (43 =? c)%N = false) by (apply N.eqb_neq; intros <-; apply Hn; now left).
  cbn [app replace_from]. change (lit "+00:00") with (43%N :: lit "00:00") at 1.
  cbn [startswith]. rewrite Hc. cbn [andb].
  f_equal. apply IH. intros H. apply Hn. now right.
Qed.

(* ===================================================================== *)
(** * Facts: conversion to UTC *)
(* ===================================================================== *)

Lemma add_micros_of_micros (t : datetime) (delta : Z) :
  add_micros t delta =
  if (0 <? (wall_micros t + delta) / us_per_day)
     && ((wall_micros t + delta) / us_per_day <=? _MAXORDINAL)
  then Ok (of_micros (wall_micros t + delta) (tz t))
  else Raise OverflowError.
Proof.
  unfold add_micros, of_micros. cbv zeta.
  destruct (_ && _); [|reflexivity].
  destruct (_ord2ymd _) as [[y m] d]. reflexivity.
Qed.

Lemma representable_days (micros : Z) :
  representable micros <->
  (0 <? micros / us_per_day) && (micros / us_per_day <=? _MAXORDINAL) = true.
Proof.
  unfold representable, us_per_day, us_per_second, _MAXORDINAL.
  rewrite andb_true_iff, Z.ltb_lt, Z.leb_le.
  split; intros H; Z.to_euclidean_division_equations; lia.
Qed.

(** The fields computed from a representable instant are those of a valid
    datetime that denotes it. *)
Lemma of_micros_spec (total : Z) (zone : Z) :
  representable total ->
  - us_per_day < zone < us_per_day ->
  let u := of_micros total (Some zone) in
  wall_micros u = total /\ valid_datetime u = true /\
  1 <= year u <= 9999 /\ 1 <= month u <= 12 /\ 1 <= day u <= 31 /\
  0 <= hour u < 24 /\ 0 <= minute u < 60 /\ 0 <= second u < 60 /\
  0 <= microsecond u < 1000000.
Proof.
  intros Hrep Hzone.
  assert (Hdays : 1 <= total / us_per_day <= _MAXORDINAL).
  { apply representable_days in Hrep. apply andb_prop in Hrep.
    rewrite Z.ltb_lt, Z.leb_le in Hrep. lia. }
  pose proof (ord2ymd_spec Hdays) as Hymd.
  unfold of_micros, wall_micros, valid_datetime, valid_date. cbv zeta.
  destruct (_ord2ymd (total / us_per_day)) as [[y m] d].
  destruct Hymd as (Hord & Hy & Hm & Hd).
  cbn [year month day hour minute second microsecond tz d_year d_month d_day].
  rewrite Hord.
  assert (Hdim : _days_in_month y m <= 31).
  { unfold _days_in_month. destruct (_ && _); [lia|].
    assert (Hmm : m = 1 \/ m = 2 \/ m = 3 \/ m = 4 \/ m = 5 \/ m = 6 \/ m = 7 \/
                    m = 8 \/ m = 9 \/ m = 10 \/ m = 11 \/ m = 12) by lia.
    repeat (destruct Hmm as [-> | Hmm]; [simpl; lia|]). subst; simpl; lia. }
  set (rest := total mod us_per_day).
  assert (Hrest : 0 <= rest < us_per_day)
    by (apply Z.mod_pos_bound; unfold us_per_day, us_per_second; lia).
  pose proof (Z.div_mod total us_per_day) as Htot. fold rest in Htot.
  clearbody rest.
  unfold us_per_day, us_per_second in Hrest, Htot, Hdays, Hord, Hzone |- *.
  split; [Z.to_euclidean_division_equations; lia|].
  split.
  - repeat (apply andb_true_intro; split);
      rewrite ?Z.leb_le, ?Z.ltb_lt; try lia;
      Z.to_euclidean_division_equations; lia.
  - repeat split; try lia; Z.to_euclidean_division_equations; lia.
Qed.

Lemma astimezone_utc_spec (t : datetime) (off : Z) :
  tz t = Some off -> representable (instant t off) ->
  astimezone_utc t = Ok (of_micros (instant t off) (Some 0)).
Proof.
  intros Htz Hrep. unfold astimezone_utc. rewrite Htz.
  rewrite add_micros_of_micros.
  replace (wall_micros t + - off) with (instant t off) by (unfold instant; ring).
  rewrite (proj1 (representable_days _) Hrep). simpl.
  rewrite add_micros_of_micros.
  assert (Hz : - us_per_day < 0 < us_per_day)
    by (unfold us_per_day, us_per_second; lia).
  destruct (@of_micros_spec (instant t off) 0 Hrep Hz) as (Hw & _).
  assert (Ew : with_tz (of_micros (instant t off) (tz t)) 0
               = of_micros (instant t off) (Some 0)).
  { unfold of_micros, with_tz. cbv zeta.
    destruct (_ord2ymd _) as [[y m] d]. reflexivity. }
  rewrite Ew, Hw, Z.add_0_r.
  rewrite (proj1 (representable_days _) Hrep).
  unfold of_micros. cbv zeta. destruct (_ord2ymd _) as [[y m] d]. reflexivity.
Qed.

(** Outside that range the conversion raises. *)
Lemma astimezone_utc_overflow (t : datetime) (off : Z) :
  tz t = Some off -> ~ representable (instant t off) ->
  json_safe (PyDatetime t) = Raise OverflowError.
Proof.
  intros Htz Hrep. simpl. unfold astimezone_utc. rewrite Htz.
  rewrite add_micros_of_micros.
  replace (wall_micros t + - off) with (instant t off) by (unfold instant; ring).
  rewrite representable_days in Hrep.
  destruct (_ && _); [congruence | reflexivity].
Qed.

(* ===================================================================== *)
(** * Facts: rendering a UTC timestamp and reading it back *)
(* ===================================================================== *)

Lemma startswith_app (p r : pystr) : startswith p (p ++ r) = true.
Proof.
  induction p as [|c p IH]; simpl; [reflexivity|].
  now rewrite N.eqb_refl, IH.
Qed.

Lemma expect_lit (c : string) (rest : pystr) :
  expect c (lit c ++ rest) = Some rest.
Proof. unfold expect. now rewrite startswith_app, skipn_exact. Qed.

Lemma not_in_app (A : Type) (x : A) (l1 l2 : list A) :
  ~ In x l1 -> ~ In x l2 -> ~ In x (l1 ++ l2).
Proof. rewrite in_app_iff. tauto. Qed.

Lemma iso_local_no_plus (u : datetime) :
  fits_isoformat u -> ~ In 43%N (iso_local u).
Proof.
  clear local_utcoffset float_repr.
  intros (Hy & Hmo & Hd & Hh & Hmi & Hs & Hus).
  unfold iso_local, _format_time.
  assert (Hlit : forall c : N, c <> 43%N -> ~ In 43%N [c])
    by (intros c Hc [H | []]; congruence).
  repeat apply not_in_app;
    try (apply fmt_d_no_plus; simpl; lia);
    try (apply Hlit; discriminate).
  destruct (microsecond u =? 0); [simpl; tauto|].
  apply not_in_app; [apply Hlit; discriminate | apply fmt_d_no_plus; simpl; lia].
Qed.

Lemma parse_utc_iso_local (u : datetime) :
  fits_isoformat u -> tz u = Some 0 ->
  parse_utc (iso_local u ++ lit "Z") = Some u.
Proof.
  destruct u as [y mo d h mi s us z].
  unfold fits_isoformat. simpl. intros (Hy & Hmo & Hd & Hh & Hmi & Hs & Hus) ->.
  unfold iso_local, _format_time. simpl year. simpl month. simpl day.
  simpl hour. simpl minute. simpl second. simpl microsecond.
  rewrite <- !app_assoc. unfold parse_utc.
  rewrite parse_field_fmt by (simpl; lia). rewrite expect_lit.
  rewrite parse_field_fmt by (simpl; lia). rewrite expect_lit.
  rewrite parse_field_fmt by (simpl; lia). rewrite expect_lit.
  rewrite parse_field_fmt by (simpl; lia). rewrite expect_lit.
  rewrite parse_field_fmt by (simpl; lia). rewrite expect_lit.
  rewrite parse_field_fmt by (simpl; lia).
  destruct (Z.eqb_spec us 0) as [-> | Hne].
  - reflexivity.
  - rewrite <- !app_assoc. rewrite expect_lit.
    rewrite parse_field_fmt by (simpl; lia). reflexivity.
Qed.

Lemma tz_of_micros (total : Z) (zone : option Z) : tz (of_micros total zone) = zone.
Proof.
  unfold of_micros. cbv zeta. destruct (_ord2ymd _) as [[y m] d]. reflexivity.
Qed.

Lemma json_safe_datetime (t : datetime) :
  json_safe (PyDatetime t) =
  (u <- astimezone_utc t ;;
   Ok (PyStr (replace (lit "+00:00") (lit "Z") (isoformat u)))).
Proof. reflexivity. Qed.

(* ===================================================================== *)
(** * The timestamp law *)
(* ===================================================================== *)

(** C5, amended.  For every timezone-aware timestamp t whose instant lies
    in the range UTC datetimes can represent (0001-01-01T00:00:00 to
    9999-12-31T23:59:59.999999), normalization returns a string: the
    ISO-8601 rendering of t converted to UTC, with the suffix "+00:00"
    replaced by a literal "Z" -- the string ends in "Z" and holds no "+" --
    and parsing that string back yields t converted to UTC, which denotes
    the same instant as t. *)
Theorem timestamp_law (t : datetime) (off : Z) :
  tz t = Some off ->
  representable (instant t off) ->
  exists u,
    astimezone_utc t = Ok u /\
    tz u = Some 0 /\
    valid_datetime u = true /\
    instant u 0 = instant t off /\
    isoformat u = iso_local u ++ lit "+00:00" /\
    json_safe (PyDatetime t) = Ok (PyStr (iso_local u ++ lit "Z")) /\
    endswith (lit "Z") (iso_local u ++ lit "Z") = true /\
    ~ In 43%N (iso_local u ++ lit "Z") /\
    parse_utc (iso_local u ++ lit "Z") = Some u.
Proof.
  intros Htz Hrep.
  set (u := of_micros (instant t off) (Some 0)).
  assert (Hz : - us_per_day < 0 < us_per_day)
    by (unfold us_per_day, us_per_second; lia).
  destruct (@of_micros_spec (instant t off) 0 Hrep Hz)
    as (Hw & Hvalid & Hy & Hmo & Hd & Hh & Hmi & Hs & Hus).
  fold u in Hw, Hvalid, Hy, Hmo, Hd, Hh, Hmi, Hs, Hus.
  assert (Hfits : fits_isoformat u) by (unfold fits_isoformat; lia).
  assert (Htzu : tz u = Some 0) by apply tz_of_micros.
  assert (Hiso : isoformat u = iso_local u ++ lit "+00:00").
  { unfold isoformat, iso_local. rewrite Htzu. rewrite <- !app_assoc. reflexivity. }
  assert (Hast : astimezone_utc t = Ok u) by (apply astimezone_utc_spec; assumption).
  exists u.
  split; [exact Hast|]. split; [exact Htzu|]. split; [exact Hvalid|].
  split; [unfold instant at 1; rewrite Hw; ring|].
  split; [exact Hiso|].
  split.
  { rewrite json_safe_datetime, Hast. cbn [bind]. rewrite Hiso.
    rewrite replace_utc_suffix by exact (iso_local_no_plus Hfits). reflexivity. }
  split.
  { unfold endswith. rewrite rev_app_distr. reflexivity. }
  split.
  { rewrite in_app_iff. intros [H | H].
    - exact (iso_local_no_plus Hfits H).
    - simpl in H. destruct H as [H | []]. discriminate. }
  apply parse_utc_iso_local; assumption.
Qed.

(* ===================================================================== *)
(** * Facts: decimal digits *)
(* ===================================================================== *)

Ltac nlia := zify; Z.to_euclidean_division_equations; lia.

Lemma ndigits_fuel_bounds (fuel : nat) (n : N) :
  (n < 2 ^ N.of_nat fuel)%N -> (0 < n)%N ->
  (1 <= ndigits_fuel fuel n)%nat /\
  (10 ^ N.of_nat (ndigits_fuel fuel n - 1) <= n < 10 ^ N.of_nat (ndigits_fuel fuel n))%N.
Proof.
  revert n. induction fuel as [|f IH]; intros n Hn Hpos.
  - simpl in Hn. lia.
  - cbn [ndigits_fuel].
    destruct (N.ltb_spec n 10) as [Hlt | Hge].
    + split; [lia|]. simpl. lia.
    + rewrite Nat2N.inj_succ, N.pow_succ_r' in Hn.
      assert (Hq : (n / 10 < 2 ^ N.of_nat f)%N).
      { revert Hn. generalize (2 ^ N.of_nat f)%N. intros p Hp. nlia. }
      assert (Hq0 : (0 < n / 10)%N) by nlia.
      destruct (IH _ Hq Hq0) as (Hk & Hlo & Hhi).
      set (k := ndigits_fuel f (n / 10)) in *.
      split; [lia|].
      replace (S k - 1)%nat with (S (k - 1)) by lia.
      rewrite !Nat2N.inj_succ, !N.pow_succ_r'.
      revert Hlo Hhi.
      generalize (10 ^ N.of_nat (k - 1))%N (10 ^ N.of_nat k)%N. intros a b Hlo Hhi.
      nlia.
Qed.

Lemma ndigits_bounds (n : N) :
  (0 < n)%N ->
  (1 <= ndigits n)%nat /\
  (10 ^ N.of_nat (ndigits n - 1) <= n < 10 ^ N.of_nat (ndigits n))%N.
Proof.
  intros Hpos. apply ndigits_fuel_bounds; [|assumption].
  rewrite N2Nat.id. apply N.size_gt.
Qed.

Lemma coeff_digits_bounds (c : N) :
  (0 < c)%N ->
  1 <= coeff_digits c /\
  (10 ^ Z.to_N (coeff_digits c - 1) <= c < 10 ^ Z.to_N (coeff_digits c))%N.
Proof.
  intros Hpos. destruct (ndigits_bounds Hpos) as (H1 & Hlo & Hhi).
  unfold coeff_digits. split; [lia|].
  replace (Z.to_N (Z.of_nat (ndigits c) - 1)) with (N.of_nat (ndigits c - 1)) by lia.
  replace (Z.to_N (Z.of_nat (ndigits c))) with (N.of_nat (ndigits c)) by lia.
  split; assumption.
Qed.

Lemma pow10_lt_exponents (a b : N) (x : N) :
  (10 ^ a <= x)%N -> (x < 10 ^ b)%N -> (a < b)%N.
Proof.
  intros Hlo Hhi. apply (N.pow_lt_mono_r_iff 10); [lia|].
  eapply N.le_lt_trans; eauto.
Qed.

Lemma pow10_pos (k : N) : (0 < 10 ^ k)%N.
Proof. apply N.neq_0_lt_0, N.pow_nonzero. discriminate. Qed.

(** A value below [10^k] has at most [k] digits. *)
Lemma coeff_digits_le (c : N) (k : Z) :
  (0 < c)%N -> 0 <= k -> (c < 10 ^ Z.to_N k)%N -> coeff_digits c <= k.
Proof.
  intros Hpos Hk Hc. destruct (coeff_digits_bounds Hpos) as (H1 & Hlo & _).
  pose proof (@pow10_lt_exponents _ _ _ Hlo Hc). lia.
Qed.

(* ===================================================================== *)
(** * Facts: the remainder of a Decimal by 1 *)
(* ===================================================================== *)

Lemma fix_zero (sign : bool) (e : Z) :
  _fix sign 0 e = Ok (DFinite sign 0 (Z.min (Z.max e Etiny) Emax)).
Proof. reflexivity. Qed.


Lemma pow10_le_mono (a b : N) : (a <= b)%N -> (10 ^ a <= 10 ^ b)%N.
Proof. intros H. apply N.pow_le_mono_r; [discriminate | exact H]. Qed.


(* ===================================================================== *)
(** * The integer-preservation law *)
(* ===================================================================== *)

Lemma float_of_decimal_finite (sign : bool) (c : N) (e : Z) :
  exists f, float_of_decimal (DFinite sign c e) = Ok f.
Proof.
  unfold float_of_decimal. destruct c as [|p]; [eexists; reflexivity|].
  destruct (0 <=? e); [eexists; reflexivity|].
  destruct (SFdiv_core_binary _ _ _ _ _ _) as [[mz ez] lz]. eexists; reflexivity.
Qed.




(** Outside the domain of the law, above: a Decimal of 29 digits or more
    has no remainder by 1 in the context, whatever its fractional part. *)
Lemma beyond_precision_raises (sign : bool) (c : N) (e : Z) :
  (0 < c)%N -> prec < adjusted c e ->
  json_safe (PyDecimal (DFinite sign c e)) = Raise InvalidOperation.
Proof.
  intros Hc Hadj. rewrite json_safe_decimal_eq. unfold mod_one.
  destruct (N.eqb_spec c 0) as [E | _]; [lia|]. cbn [orb].
  destruct (Z.leb_spec (adjusted c e) (-2)) as [H | _]; [unfold prec in Hadj; lia|].
  destruct (Z.leb_spec (adjusted c e) prec) as [H | _]; [lia|].
  reflexivity.
Qed.

(** Outside the domain of the law, below: a non-zero Decimal under
    5E-1000027 has a remainder that underflows to zero, and becomes the
    int 0. *)
Lemma underflow_becomes_int_0 :
  ~ has_zero_fraction (DFinite false 5 (-1000027)) /\
  json_safe (PyDecimal (DFinite false 5 (-1000027))) = Ok (PyInt 0).
Proof.
  assert (Hlt : (5 < 10 ^ 1000027)%N).
  { eapply N.lt_le_trans; [|apply (pow10_le_mono (a := 1))]; [reflexivity | discriminate]. }
  split.
  - unfold has_zero_fraction. change (Z.to_N (- -1000027)) with 1000027%N.
    rewrite N.mod_small by exact Hlt. discriminate.
  - rewrite json_safe_decimal_eq.
    replace (mod_one (DFinite false 5 (-1000027))) with (Ok (DFinite false 0 Etiny))
      by (vm_compute; reflexivity).
    cbn [bind is_zero N.eqb]. unfold int_of_decimal.
    change (0 <=? -1000027) with false. cbv iota.
    change (Z.to_N (- -1000027)) with 1000027%N.
    rewrite N.div_small by exact Hlt. reflexivity.
Qed.

(* ===================================================================== *)
(** * More on json_safe: shape, serializability, exceptions *)
(* ===================================================================== *)

Lemma json_safe_list_nth (items l : list Any) :
  json_safe_list items = Ok l ->
  List.length l = List.length items /\
  forall i x, nth_error items i = Some x ->
              exists y, json_safe x = Ok y /\ nth_error l i = Some y.
Proof.
  revert l. induction items as [|x0 items IH]; intros l H; simpl in H.
  - injection H as <-. split; [reflexivity|]. intros [|i] x; discriminate.
  - inv_bind H. inv_bind H. injection H as <-.
    destruct (IH _ E0) as (Hlen & Hnth).
    split; [simpl; now rewrite Hlen|].
    intros [|i] y Hy; simpl in Hy |- *.
    + injection Hy as <-. eauto.
    + eauto.
Qed.

(** X1. [json_safe] keeps the shape of a mapping: the result is a mapping
    with the same keys in the same order, and the value under each key is
    the normalized value of the input under that key. *)
Theorem json_safe_keeps_keys (items : list (pystr * Any)) (w : Any) :
  json_safe (PyDict items) = Ok w ->
  exists d,
    w = PyDict d /\ keys d = keys items /\
    forall k v, get items k = Some v ->
                exists v', json_safe v = Ok v' /\ get d k = Some v'.
Proof.
  intros H. rewrite json_safe_dict in H. inv_bind H. injection H as <-.
  exists x. split; [reflexivity|].
  split; [now apply json_safe_items_keys|].
  intros k v Hk. pose proof (json_safe_items_get items k E) as Hg.
  now rewrite Hk in Hg.
Qed.

(** X2. [json_safe] keeps the shape of a sequence: the result is a list of
    the same length whose element at each position is the normalized
    element of the input at that position. *)
Theorem json_safe_keeps_positions (items : list Any) (w : Any) :
  json_safe (PyList items) = Ok w ->
  exists l,
    w = PyList l /\ List.length l = List.length items /\
    forall i x, nth_error items i = Some x ->
                exists y, json_safe x = Ok y /\ nth_error l i = Some y.
Proof.
  intros H. rewrite json_safe_list_eq in H. inv_bind H. injection H as <-.
  exists x. split; [reflexivity|]. now apply json_safe_list_nth.
Qed.



(** ** The exceptions of json_safe *)

(** Fitting a value below 1 to the context never overflows. *)
Lemma fix_small_ok (sign : bool) (c : N) (e : Z) :
  coeff_digits c + e <= 0 -> exists r, _fix sign c e = Ok r.
Proof.
  intros Hsmall. unfold _fix.
  destruct (c =? 0)%N; [eexists; reflexivity|].
  destruct (Z.ltb_spec Etop (coeff_digits c + e - prec)) as [H | _];
    [unfold Etop, Emax, prec in H; lia|].
  destruct (e <? _); [|eexists; reflexivity].
  destruct (coeff_digits _ >? prec); [|eexists; reflexivity].
  destruct (Z.ltb_spec Etop (Z.max (coeff_digits c + e - prec) Etiny + 1)) as [H | _];
    [unfold Etop, Emax, Etiny, Emin, prec in H; lia|].
  eexists; reflexivity.
Qed.

Lemma mod_one_raises (d : Decimal) (e : exn) :
  mod_one d = Raise e -> e = InvalidOperation.
Proof.
  destruct d as [sign c ex | sign | sign [|]]; simpl; try congruence.
  - destruct (N.eqb_spec c 0) as [-> | Hc]; cbn [orb].
    + rewrite fix_zero. discriminate.
    + assert (Hpos : (0 < c)%N) by lia.
      destruct (Z.leb_spec (adjusted c ex) (-2)) as [Hsmall | Hbig].
      * unfold adjusted in Hsmall.
        destruct (coeff_digits_bounds Hpos) as (HD & _).
        replace (Z.min ex 0) with ex by lia.
        replace (ex - ex) with 0 by ring. change (Z.to_N 0) with 0%N.
        rewrite N.pow_0_r, N.mul_1_r.
        destruct (@fix_small_ok sign c ex) as [r ->]; [lia | discriminate].
      * destruct (adjusted c ex <=? prec); [|congruence].
        destruct (_ <? _)%N; [|congruence].
        destruct (Z.leb_spec 0 ex) as [Hnn | Hneg].
        -- rewrite N.mod_1_r, fix_zero. discriminate.
        -- replace (Z.min ex 0) with ex by lia.
           set (unit := (10 ^ Z.to_N (- ex))%N).
           destruct (N.eq_dec (c mod unit) 0) as [-> | Hr];
             [rewrite fix_zero; discriminate|].
           assert (Hrpos : (0 < c mod unit)%N) by (apply N.neq_0_lt_0; exact Hr).
           assert (Hrlt : (c mod unit < unit)%N)
             by (apply N.mod_upper_bound, N.pow_nonzero; discriminate).
           destruct (@fix_small_ok sign (c mod unit) ex) as [r ->]; [|discriminate].
           assert (H : coeff_digits (c mod unit) <= - ex)
             by (apply coeff_digits_le; [assumption | lia | exact Hrlt]).
           lia.
Qed.








(* ===================================================================== *)
(** * More on Decimals and dates *)
(* ===================================================================== *)

Lemma mod_one_within (sign : bool) (c : N) (e : Z) :
  within_precision (DFinite sign c e) ->
  exists r, mod_one (DFinite sign c e) = Ok r.
Proof.
  intros Hmag.
  destruct (mod_one (DFinite sign c e)) as [r|x] eqn:Hm; [eauto|exfalso].
  pose proof (mod_one_raises _ Hm) as ->.
  unfold within_precision in Hmag. unfold mod_one in Hm.
  destruct (N.eqb_spec c 0) as [-> | Hc]; cbn [orb] in Hm.
  { rewrite fix_zero in Hm. discriminate. }
  assert (Hpos : (0 < c)%N) by lia.
  destruct (coeff_digits_bounds Hpos) as (HD & Hlo & Hhi).
  unfold adjusted in Hm. set (D := coeff_digits c) in *.
  destruct (Z.leb_spec (e + D - 1) (-2)) as [Hsmall | Hbig].
  - replace (Z.min e 0) with e in Hm by lia.
    replace (e - e) with 0 in Hm by ring. change (Z.to_N 0) with 0%N in Hm.
    rewrite N.pow_0_r, N.mul_1_r in Hm.
    destruct (@fix_small_ok sign c e) as [r Hr]; [fold D; lia | congruence].
  - destruct (Z.leb_spec 0 e) as [Hnn | Hneg].
    + replace (Z.to_N (- e)) with 0%N in * by lia.
      rewrite N.pow_0_r, N.mul_1_r in Hmag.
      assert (Hadj : e + D - 1 <= prec).
      { assert (H : (10 ^ (Z.to_N (D - 1) + Z.to_N e) <= c * 10 ^ Z.to_N e)%N).
        { rewrite N.pow_add_r. apply N.mul_le_mono_r. exact Hlo. }
        pose proof (@pow10_lt_exponents _ _ _ H Hmag). unfold prec. lia. }
      destruct (Z.leb_spec (e + D - 1) prec) as [_ | H]; [|lia].
      rewrite N.div_1_r, N.mod_1_r in Hm. change (Z.to_N prec) with 28%N in Hm.
      destruct (N.ltb_spec (c * 10 ^ Z.to_N e) (10 ^ 28)) as [_ | H]; [|lia].
      rewrite fix_zero in Hm. discriminate.
    + replace (Z.to_N e) with 0%N in * by lia.
      rewrite N.pow_0_r, N.mul_1_r in Hmag.
      assert (Hadj : e + D - 1 <= prec).
      { rewrite <- N.pow_add_r in Hmag.
        pose proof (@pow10_lt_exponents _ _ _ Hlo Hmag). unfold prec. lia. }
      destruct (Z.leb_spec (e + D - 1) prec) as [_ | H]; [|lia].
      change (Z.to_N prec) with 28%N in Hm.
      set (unit := (10 ^ Z.to_N (- e))%N) in *.
      destruct (N.ltb_spec (c / unit) (10 ^ 28)) as [_ | H].
      2:{ apply (N.lt_irrefl (10 ^ 28)).
          eapply N.le_lt_trans; [exact H|].
          apply N.Div0.div_lt_upper_bound. now rewrite N.mul_comm. }
      replace (Z.min e 0) with e in Hm by lia.
      destruct (N.eq_dec (c mod unit) 0) as [Er | Er].
      * rewrite Er, fix_zero in Hm. discriminate.
      * assert (Hr : (0 < c mod unit)%N) by (apply N.neq_0_lt_0; exact Er).
        assert (Hrlt : (c mod unit < unit)%N)
          by (apply N.mod_upper_bound, N.pow_nonzero; discriminate).
        destruct (@fix_small_ok sign (c mod unit) e) as [r Hr']; [|congruence].
        assert (H : coeff_digits (c mod unit) <= - e)
          by (apply coeff_digits_le; [assumption | lia | exact Hrlt]).
        lia.
Qed.

Lemma mod_one_beyond (sign : bool) (c : N) (e : Z) :
  ~ within_precision (DFinite sign c e) ->
  mod_one (DFinite sign c e) = Raise InvalidOperation.
Proof.
  unfold within_precision. intros Hmag. apply N.nlt_ge in Hmag.
  unfold mod_one.
  destruct (N.eqb_spec c 0) as [-> | Hc].
  { exfalso. rewrite N.mul_0_l in Hmag.
    pose proof (pow10_pos 28). pose proof (pow10_pos (Z.to_N (- e))).
    apply N.le_0_r, N.eq_mul_0 in Hmag. lia. }
  assert (Hpos : (0 < c)%N) by lia.
  destruct (coeff_digits_bounds Hpos) as (HD & Hlo & Hhi).
  cbn [orb]. unfold adjusted. set (D := coeff_digits c) in *.
  destruct (Z.leb_spec (e + D - 1) (-2)) as [Hsmall | Hbig].
  - exfalso. replace (Z.to_N e) with 0%N in Hmag by lia.
    rewrite N.pow_0_r, N.mul_1_r in Hmag.
    apply (N.lt_irrefl c). eapply N.lt_le_trans; [exact Hhi|].
    eapply N.le_trans; [|exact Hmag].
    eapply N.le_trans; [apply (pow10_le_mono (a := Z.to_N D) (b := Z.to_N (- e))); lia|].
    rewrite <- (N.mul_1_l (10 ^ Z.to_N (- e))) at 1.
    apply N.mul_le_mono_r. pose proof (pow10_pos 28). lia.
  - destruct (e + D - 1 <=? prec); [|reflexivity].
    change (Z.to_N prec) with 28%N.
    destruct (Z.leb_spec 0 e) as [Hnn | Hneg].
    + replace (Z.to_N (- e)) with 0%N in Hmag by lia.
      rewrite N.pow_0_r, N.mul_1_r in Hmag. rewrite N.div_1_r.
      destruct (N.ltb_spec (c * 10 ^ Z.to_N e) (10 ^ 28)) as [H | _]; [lia | reflexivity].
    + replace (Z.to_N e) with 0%N in Hmag by lia.
      rewrite N.pow_0_r, N.mul_1_r in Hmag.
      destruct (N.ltb_spec (c / 10 ^ Z.to_N (- e)) (10 ^ 28)) as [H | _]; [|reflexivity].
      exfalso. apply (N.lt_irrefl (10 ^ 28)).
      eapply N.le_lt_trans; [|exact H].
      apply N.div_le_lower_bound; [apply N.pow_nonzero; discriminate|].
      now rewrite N.mul_comm.
Qed.

(** X6. Normalizing a finite Decimal succeeds exactly when its integer
    part fits the 28 digits of the decimal context (|d| < 10^28), and then
    returns an int or a float; any larger Decimal makes [json_safe] raise
    InvalidOperation. *)
Theorem decimal_domain (sign : bool) (c : N) (e : Z) :
  ((exists w, json_safe (PyDecimal (DFinite sign c e)) = Ok w /\
              ((exists n, w = PyInt n) \/ (exists f, w = PyFloat f)))
   <-> within_precision (DFinite sign c e)) /\
  (~ within_precision (DFinite sign c e) ->
   json_safe (PyDecimal (DFinite sign c e)) = Raise InvalidOperation).
Proof.
  assert (Hbeyond : ~ within_precision (DFinite sign c e) ->
                    json_safe (PyDecimal (DFinite sign c e)) = Raise InvalidOperation).
  { intros H. rewrite json_safe_decimal_eq, (mod_one_beyond H). reflexivity. }
  split; [|exact Hbeyond]. split.
  - intros (w & Hw & _).
    destruct (N.lt_decidable (c * 10 ^ Z.to_N e) (10 ^ 28 * 10 ^ Z.to_N (- e)))
      as [H | H]; [exact H|].
    rewrite (Hbeyond H) in Hw. discriminate.
  - intros H. destruct (mod_one_within H) as [r Hr].
    rewrite json_safe_decimal_eq, Hr. cbn [bind].
    destruct (is_zero r).
    + eexists. split; [reflexivity|]. left. eauto.
    + destruct (float_of_decimal_finite sign c e) as [f ->].
      eexists. split; [reflexivity|]. right. eauto.
Qed.

Lemma ten_28_of_N : Z.of_N (10 ^ 28) = 10 ^ 28.
Proof. vm_compute. reflexivity. Qed.

(** X7. An int that comes out of a Decimal has at most 28 digits: whenever
    [json_safe] turns a Decimal into the int [n], [|n| < 10^28]. *)
Theorem int_from_decimal_bounded (d : Decimal) (n : Z) :
  json_safe (PyDecimal d) = Ok (PyInt n) -> Z.abs n < 10 ^ 28.
Proof.
  intros H.
  destruct d as [sign c e | sign | sign sig].
  - assert (Hw : within_precision (DFinite sign c e)).
    { destruct (N.lt_decidable (c * 10 ^ Z.to_N e) (10 ^ 28 * 10 ^ Z.to_N (- e)))
        as [Hw | Hw]; [exact Hw|].
      rewrite json_safe_decimal_eq, (mod_one_beyond Hw) in H. discriminate. }
    rewrite json_safe_decimal_eq in H.
    destruct (mod_one (DFinite sign c e)) as [r|x]; cbn [bind] in H; [|discriminate].
    destruct (is_zero r).
    2:{ destruct (float_of_decimal_finite sign c e) as [f Hf].
        rewrite Hf in H. discriminate. }
    unfold int_of_decimal in H. cbn [bind] in H. injection H as <-.
    unfold within_precision in Hw.
    assert (Hm : (Z.of_N (if 0 <=? e then c * 10 ^ Z.to_N e
                          else c / 10 ^ Z.to_N (- e)) < 10 ^ 28)%Z).
    { rewrite <- ten_28_of_N. apply N2Z.inj_lt.
      destruct (Z.leb_spec 0 e) as [Hnn | Hneg].
      - replace (Z.to_N (- e)) with 0%N in Hw by lia.
        now rewrite N.pow_0_r, N.mul_1_r in Hw.
      - replace (Z.to_N e) with 0%N in Hw by lia.
        rewrite N.pow_0_r, N.mul_1_r in Hw.
        apply N.Div0.div_lt_upper_bound. now rewrite N.mul_comm. }
    revert Hm. generalize (if 0 <=? e then (c * 10 ^ Z.to_N e)%N
                           else (c / 10 ^ Z.to_N (- e))%N).
    generalize (10 ^ 28). intros bound m Hm. destruct sign; lia.
  - simpl in H. discriminate.
  - destruct sig; simpl in H; discriminate.
Qed.

(** ** Dates *)

Lemma days_in_month_le_31 (y m : Z) : 1 <= m <= 12 -> _days_in_month y m <= 31.
Proof.
  intros Hm. unfold _days_in_month. destruct (_ && _); [lia|].
  assert (Hmm : m = 1 \/ m = 2 \/ m = 3 \/ m = 4 \/ m = 5 \/ m = 6 \/ m = 7 \/
                  m = 8 \/ m = 9 \/ m = 10 \/ m = 11 \/ m = 12) by lia.
  repeat (destruct Hmm as [-> | Hmm]; [simpl; lia|]). subst; simpl; lia.
Qed.

Lemma length_fmt_d (w : nat) (z : Z) :
  (1 <= w)%nat -> 0 <= z < 10 ^ Z.of_nat w -> List.length (fmt_d w z) = w.
Proof. intros Hw Hz. rewrite fmt_d_small by assumption. apply length_low_digits. Qed.

Lemma valid_date_ranges (d : date) :
  valid_date d = true ->
  1 <= d_year d <= 9999 /\ 1 <= d_month d <= 12 /\ 1 <= d_day d <= 31.
Proof.
  unfold valid_date. rewrite !andb_true_iff, !Z.leb_le.
  intros (((((Hy1 & Hy2) & Hm1) & Hm2) & Hd1) & Hd2).
  pose proof (@days_in_month_le_31 (d_year d) (d_month d)). lia.
Qed.

(** X8. A date is rendered as the ten characters YYYY-MM-DD, from which
    the date can be read back; so two different dates never normalize to
    the same string. *)
Theorem date_round_trip (d : date) :
  valid_date d = true ->
  json_safe (PyDate d) = Ok (PyStr (date_isoformat d)) /\
  List.length (date_isoformat d) = 10%nat /\
  parse_date (date_isoformat d) = Some d /\
  forall d', valid_date d' = true ->
             json_safe (PyDate d') = json_safe (PyDate d) -> d' = d.
Proof.
  assert (Hparse : forall x, valid_date x = true ->
                             parse_date (date_isoformat x) = Some x).
  { intros [y m dd] Hx. apply valid_date_ranges in Hx. simpl in Hx.
    unfold date_isoformat, parse_date. cbn [d_year d_month d_day].
    rewrite parse_field_fmt by (simpl; lia). rewrite expect_lit.
    rewrite parse_field_fmt by (simpl; lia). rewrite expect_lit.
    rewrite <- (app_nil_r (fmt_d 2 dd)).
    rewrite parse_field_fmt by (simpl; lia). reflexivity. }
  intros Hd. split; [reflexivity|]. split; [|split; [now apply Hparse|]].
  - pose proof (valid_date_ranges d Hd) as (Hy & Hm & Hdd).
    unfold date_isoformat. rewrite !length_app.
    rewrite !length_fmt_d by (simpl; lia). reflexivity.
  - intros d' Hd' Heq. simpl in Heq. injection Heq as Heq.
    apply Hparse in Hd, Hd'. rewrite Heq in Hd'. congruence.
Qed.

(* ===================================================================== *)
(** * More on the catalog *)
(* ===================================================================== *)

Lemma In_setitem (d : dict) (k k' : pystr) (v v' : Any) :
  In (k', v') (setitem d k v) -> (k' = k /\ v' = v) \/ In (k', v') d.
Proof.
  induction d as [|[k0 x] d IH]; simpl.
  - intros [H | []]. injection H as <- <-. auto.
  - destruct (str_eqb k0 k) eqn:E.
    + apply str_eqb_eq in E. subst k0.
      intros [H | H]; [injection H as <- <-; auto | auto].
    + intros [H | H]; [auto | destruct (IH H); auto].
Qed.

Lemma add_item_filed (cat cat' : dict) (raw_item : Any) :
  add_item cat raw_item = Ok cat' ->
  filed_by_identifier cat -> filed_by_identifier cat'.
Proof.
  unfold add_item. intros H Hf. inv_bind H.
  destruct x as [ | | | | | | | | | fields]; try discriminate.
  destruct (get fields (lit "InstanceType")) as [[ | | | | s | | | | | ]|] eqn:G;
    try (injection H as <-; exact Hf).
  destruct s as [|c s]; injection H as <-; [exact Hf|].
  intros k item Hin. apply In_setitem in Hin.
  destruct Hin as [[-> ->] | Hin]; [|auto].
  unfold identifier. rewrite G. reflexivity.
Qed.

Lemma add_items_filed (raw_items : list Any) (cat cat' : dict) :
  add_items cat raw_items = Ok cat' ->
  filed_by_identifier cat -> filed_by_identifier cat'.
Proof.
  revert cat. induction raw_items as [|r rs IH]; intros cat H Hok; simpl in H.
  - now injection H as <-.
  - inv_bind H. eapply IH; eauto. eapply add_item_filed; eauto.
Qed.

Lemma fetch_filed (p : provider) (cat cat' : dict) (failure : option pystr) :
  fetch cat p = Fetched cat' failure ->
  filed_by_identifier cat -> filed_by_identifier cat'.
Proof.
  revert cat. induction p as [ | exc | page rest IH]; intros cat H Hok; simpl in H.
  - now injection H as <- _.
  - now injection H as <- _.
  - destruct (iterate (page_items page)) as [raw_items|e] eqn:Ei; simpl in H;
      [|discriminate].
    destruct (add_items cat raw_items) as [cat1|e] eqn:Ea; [|discriminate].
    eapply IH; eauto. eapply add_items_filed; eauto.
Qed.

(** X9. Whatever the pages hold, the catalog the loop leaves behind is
    well formed: its keys are pairwise distinct and non-empty, and every
    entry is a mapping stored under its own ["InstanceType"] string, with
    no datetime, date or Decimal left in it. *)
Theorem catalog_invariant (p : provider) (instance_types : dict)
        (failure : option pystr) :
  fetch [] p = Fetched instance_types failure ->
  distinct_keys instance_types /\
  forall k item,
    In (k, item) instance_types ->
    k <> [] /\
    (exists fields, item = PyDict fields /\
                    get fields (lit "InstanceType") = Some (PyStr k)) /\
    get instance_types k = Some item /\
    json_clean item = true.
Proof.
  intros Hf.
  pose proof (@fetch_ok _ _ _ _ Hf catalog_ok_nil) as [Hd Hc].
  assert (Hfiled : filed_by_identifier instance_types).
  { eapply fetch_filed; [exact Hf|]. intros k item []. }
  split; [exact Hd|]. intros k item Hin.
  pose proof (Hfiled k item Hin) as Hid.
  split; [eapply identifier_nonempty; exact Hid|].
  split.
  - unfold identifier in Hid.
    destruct item as [ | | | | | | | | | fields]; try discriminate.
    exists fields. split; [reflexivity|].
    destruct (get fields (lit "InstanceType")) as [[ | | | | [|c s] | | | | | ]|];
      try discriminate.
    now injection Hid as <-.
  - split; [now apply In_get|].
    simpl in Hc. rewrite forallb_forall in Hc. exact (Hc (k, item) Hin).
Qed.

Lemma add_items_normalized (raw_items : list Any) (cat cat' : dict) :
  add_items cat raw_items = Ok cat' ->
  exists items, Forall2 normalized_record raw_items items.
Proof.
  revert cat. induction raw_items as [|r rs IH]; intros cat H; simpl in H.
  - exists []. constructor.
  - inv_bind H. destruct (IH _ H) as [items Hitems].
    unfold add_item in E. inv_bind E.
    destruct x0 as [ | | | | | | | | | fields]; try discriminate.
    exists (PyDict fields :: items). constructor; [|exact Hitems].
    split; [assumption | eauto].
Qed.

Lemma keys_fold_store_iff (items : list Any) (cat : dict) (k : pystr) :
  In k (keys (fold_left store items cat)) <->
  In k (keys cat) \/ In k (identifiers items).
Proof.
  revert cat. induction items as [|x items IH]; intros cat; simpl.
  - tauto.
  - rewrite IH, in_app_iff. unfold store.
    destruct (identifier x) as [id|]; simpl.
    + rewrite In_keys_setitem. intuition (subst; auto).
    + tauto.
Qed.

Lemma length_identifiers (items : list Any) :
  (List.length (identifiers items) <= List.length items)%nat.
Proof.
  induction items as [|x items IH]; simpl; [lia|].
  rewrite length_app. destruct (identifier x); simpl; lia.
Qed.

(** X10. The keys of the catalog are exactly the identifiers of the
    normalized records: no record with a usable identifier is lost, no key
    is invented, and the catalog never has more entries than there were
    records. *)
Theorem catalog_keys_are_the_identifiers
        (p : provider) (raw_items : list Any) (instance_types : dict)
        (failure : option pystr) :
  records p = Ok raw_items ->
  fetch [] p = Fetched instance_types failure ->
  exists items,
    Forall2 normalized_record raw_items items /\
    (forall k, In k (keys instance_types) <-> In k (identifiers items)) /\
    (List.length instance_types <= List.length (identifiers items))%nat /\
    (List.length instance_types <= List.length raw_items)%nat.
Proof.
  intros Hr Hf.
  pose proof (@fetch_ok _ _ _ _ Hf catalog_ok_nil) as [Hd _].
  rewrite (@fetch_records p raw_items [] Hr) in Hf.
  destruct (add_items [] raw_items) as [cat|e] eqn:Ea; [|discriminate].
  injection Hf as <- _.
  destruct (add_items_normalized _ _ Ea) as [items Hitems].
  rewrite (@add_items_store raw_items items [] Hitems) in Ea. injection Ea as <-.
  assert (Hkeys : forall k, In k (keys (fold_left store items []))
                            <-> In k (identifiers items)).
  { intros k. rewrite keys_fold_store_iff. simpl. tauto. }
  assert (Hlen : (List.length (fold_left store items [])
                  <= List.length (identifiers items))%nat).
  { rewrite <- (length_map fst (fold_left store items [])).
    apply NoDup_incl_length; [exact Hd|].
    intros k Hk. now apply Hkeys. }
  exists items. split; [exact Hitems|]. split; [exact Hkeys|].
  split; [exact Hlen|].
  pose proof (length_identifiers items). pose proof (Forall2_length Hitems). lia.
Qed.

(** X11. Where the pages are cut makes no difference: two paginations
    that deliver the same records in the same order and end the same way
    give the same catalog and the same run. *)
Theorem page_boundaries_do_not_matter
        (a : args) (clock : datetime) (p p' : provider) (raw_items : list Any) :
  records p = Ok raw_items ->
  records p' = Ok raw_items ->
  outcome p = outcome p' ->
  fetch [] p = fetch [] p' /\ main a clock p = main a clock p'.
Proof.
  intros Hr Hr' Ho.
  assert (Hf : fetch [] p = fetch [] p').
  { rewrite (@fetch_records p raw_items [] Hr), (@fetch_records p' raw_items [] Hr'), Ho. reflexivity. }
  split; [exact Hf|]. unfold main. rewrite Hf. reflexivity.
Qed.

(* ===================================================================== *)
(** * More on the run *)
(* ===================================================================== *)


(** X12. A record that cannot be processed aborts the whole run: when
    normalizing a record raises, or the normalized record is not a
    mapping (AttributeError from [item.get]), the exception leaves [main]
    uncaught; nothing is printed by [main], no directory is made, no file
    is written, and the status is 1, with or without the allow-empty
    flag and whatever the pages after it hold. *)
Theorem bad_record_aborts_run
        (a : args) (clock : datetime) (p : provider)
        (before after : list Any) (raw_item : Any)
        (instance_types : dict) (e : exn) :
  records p = Ok (before ++ raw_item :: after) ->
  add_items [] before = Ok instance_types ->
  json_safe raw_item = Raise e
  \/ (exists item, json_safe raw_item = Ok item /\
                   (forall fields, item <> PyDict fields) /\
                   e = AttributeError) ->
  main a clock p = mkrun (Raised e) [] [] /\
  exit_status (main a clock p) = 1.
Proof.
  intros Hr Hb Hbad.
  assert (Hitem : add_item instance_types raw_item = Raise e).
  { unfold add_item. destruct Hbad as [-> | (item & -> & Hnd & ->)]; [reflexivity|].
    cbn [bind]. destruct item as [ | | | | | | | | | fields]; try reflexivity.
    now destruct (Hnd fields). }
  assert (Hf : fetch [] p = Uncaught e).
  { rewrite (@fetch_records p _ [] Hr), add_items_app, Hb. cbn [bind add_items].
    rewrite Hitem. reflexivity. }
  assert (Hm : main a clock p = mkrun (Raised e) [] [])
    by (unfold main; rewrite Hf; reflexivity).
  split; [exact Hm | rewrite Hm; reflexivity].
Qed.




(* ===================================================================== *)
(** * More on the text written *)
(* ===================================================================== *)

(** ** The timestamp of the document *)

Lemma valid_datetime_fits (t : datetime) :
  valid_datetime t = true -> fits_isoformat t.
Proof.
  unfold valid_datetime. rewrite !andb_true_iff.
  intros (((((((((Hdate & Hh1) & Hh2) & Hm1) & Hm2) & Hs1) & Hs2) & Hu1) & Hu2) & _).
  apply valid_date_ranges in Hdate. simpl in Hdate.
  apply Z.leb_le in Hh1, Hm1, Hs1, Hu1. apply Z.ltb_lt in Hh2, Hm2, Hs2, Hu2.
  unfold us_per_second in Hu2. unfold fits_isoformat. lia.
Qed.

(** X16. The ["generated_at"] field of the document is the UTC clock
    reading in the form YYYY-MM-DDTHH:MM:SS[.ffffff]Z: the offset "+00:00"
    is replaced by "Z", the string has 20 characters on a whole second and
    27 otherwise, and the clock reading can be read back from it. *)
Theorem generated_at_is_the_utc_clock
        (a : args) (clock : datetime) (instance_types : dict) :
  valid_datetime clock = true ->
  lookup (payload (region a) clock instance_types) ["generated_at"%string]
  = Some (PyStr (iso_local (now_utc clock) ++ lit "Z")) /\
  List.length (iso_local (now_utc clock) ++ lit "Z")
  = (if microsecond clock =? 0 then 20%nat else 27%nat) /\
  ~ In 43%N (iso_local (now_utc clock) ++ lit "Z") /\
  parse_utc (iso_local (now_utc clock) ++ lit "Z") = Some (now_utc clock).
Proof.
  intros Hvalid. pose proof (valid_datetime_fits _ Hvalid) as Hfits.
  assert (Hfits' : fits_isoformat (now_utc clock)) by exact Hfits.
  pose proof (iso_local_no_plus Hfits') as Hplus.
  split.
  { change (lookup (payload (region a) clock instance_types) ["generated_at"%string])
      with (Some (PyStr (replace (lit "+00:00") (lit "Z") (isoformat (now_utc clock))))).
    assert (Hiso : isoformat (now_utc clock) = iso_local (now_utc clock) ++ lit "+00:00").
    { unfold isoformat, iso_local. rewrite <- !app_assoc. reflexivity. }
    rewrite Hiso, replace_utc_suffix by exact Hplus. reflexivity. }
  split.
  { destruct Hfits as (Hy & Hmo & Hd & Hh & Hmi & Hs & Hus).
    unfold iso_local, _format_time, now_utc, with_tz.
    cbn [year month day hour minute second microsecond].
    rewrite !length_app. rewrite !length_fmt_d by (simpl; lia).
    destruct (microsecond clock =? 0); [reflexivity|].
    rewrite !length_app. rewrite !length_fmt_d by (simpl; lia). reflexivity. }
  split.
  { apply not_in_app; [exact Hplus|]. intros [H | []]. discriminate. }
  apply parse_utc_iso_local; [exact Hfits' | reflexivity].
Qed.

(** ** Printable output *)

Lemma printable_range (c : N) : (32 <= c <= 126)%N -> printable c = true.
Proof.
  intros [H1 H2]. unfold printable.
  apply N.leb_le in H1, H2. rewrite H1, H2. apply orb_true_r.
Qed.

Lemma printable_low_digits (w : nat) (n : N) :
  forallb printable (low_digits w n) = true.
Proof.
  revert n. induction w as [|w IH]; intros n; cbn [low_digits]; [reflexivity|].
  rewrite forallb_app, IH. cbn [forallb andb]. rewrite andb_true_r.
  apply printable_range.
  assert (H : (n mod 10 < 10)%N) by (apply N.mod_upper_bound; discriminate).
  revert H. generalize (n mod 10)%N. intros r H. lia.
Qed.

Lemma printable_fmt_d (w : nat) (z : Z) : forallb printable (fmt_d w z) = true.
Proof.
  unfold fmt_d.
  destruct z; [apply printable_low_digits | apply printable_low_digits |].
  rewrite forallb_app, printable_low_digits. reflexivity.
Qed.

Lemma printable_low_hex (w : nat) (n : N) :
  forallb printable (low_hex w n) = true.
Proof.
  revert n. induction w as [|w IH]; intros n; cbn [low_hex]; [reflexivity|].
  rewrite forallb_app, IH. cbn [forallb andb]. rewrite andb_true_r.
  apply printable_range.
  assert (H : (n mod 16 < 16)%N) by (apply N.mod_upper_bound; discriminate).
  revert H. generalize (n mod 16)%N. intros r H.
  unfold hex_char. destruct (N.ltb_spec r 10); lia.
Qed.

Lemma printable_escape_char (c : N) : forallb printable (escape_char c) = true.
Proof.
  unfold escape_char.
  destruct (c =? 92)%N; [reflexivity|].
  destruct (c =? 34)%N; [reflexivity|].
  destruct (c =? 8)%N; [reflexivity|].
  destruct (c =? 12)%N; [reflexivity|].
  destruct (c =? 10)%N; [reflexivity|].
  destruct (c =? 13)%N; [reflexivity|].
  destruct (c =? 9)%N; [reflexivity|].
  destruct ((32 <=? c) && (c <=? 126))%N eqn:E.
  { simpl. unfold printable. rewrite E. rewrite orb_true_r. reflexivity. }
  unfold fmt_04x.
  destruct (c <? 65536)%N;
    rewrite ?forallb_app, ?printable_low_hex; reflexivity.
Qed.

Lemma printable_basestring (s : pystr) :
  forallb printable (encode_basestring_ascii s) = true.
Proof.
  unfold encode_basestring_ascii. rewrite !forallb_app.
  assert (H : forallb printable (flat_map escape_char s) = true).
  { induction s as [|c s IH]; simpl; [reflexivity|].
    now rewrite forallb_app, printable_escape_char. }
  rewrite H. reflexivity.
Qed.

Lemma printable_newline_indent (level : nat) :
  forallb printable (newline_indent level) = true.
Proof.
  unfold newline_indent. generalize (2 * level)%nat. intros n.
  cbn [forallb]. change (printable 10) with true. cbn [andb].
  induction n as [|n IH]; [reflexivity | exact IH].
Qed.

Lemma printable_join (sep : pystr) (parts : list pystr) :
  forallb printable sep = true ->
  Forall (fun s => forallb printable s = true) parts ->
  forallb printable (join sep parts) = true.
Proof.
  intros Hsep Hparts. induction Hparts as [|s l Hs Hl IH]; [reflexivity|].
  destruct l as [|s' l]; [exact Hs|].
  change (join sep (s :: s' :: l)) with (s ++ sep ++ join sep (s' :: l)).
  now rewrite !forallb_app, Hs, Hsep, IH.
Qed.

Lemma printable_array_text (level : nat) (chunks : list pystr) :
  Forall (fun s => forallb printable s = true) chunks ->
  forallb printable (array_text level chunks) = true.
Proof.
  intros H. unfold array_text.
  rewrite !forallb_app, !printable_newline_indent, printable_join;
    [reflexivity | now rewrite forallb_app, printable_newline_indent | exact H].
Qed.

Lemma printable_object_text (level : nat) (members : list (pystr * pystr)) :
  Forall (fun kc => forallb printable (snd kc) = true) members ->
  forallb printable (object_text level members) = true.
Proof.
  intros H. unfold object_text.
  rewrite !forallb_app, !printable_newline_indent, printable_join;
    [reflexivity | now rewrite forallb_app, printable_newline_indent |].
  apply Forall_map. eapply Forall_impl; [|exact H].
  intros [k c] Hkc. unfold member. cbn [fst snd] in Hkc |- *.
  rewrite !forallb_app, printable_basestring, Hkc. reflexivity.
Qed.

Section Printable.

(** [float.__repr__] produces digits, a sign, a point and an exponent
    mark only. *)
Hypothesis float_repr_printable : forall f, forallb printable (float_repr f) = true.

Lemma printable_floatstr (f : float) : forallb printable (floatstr f) = true.
Proof.
  unfold floatstr. destruct f as [s | s | | s m e];
    try apply float_repr_printable; [destruct s|]; reflexivity.
Qed.

Lemma printable_render (o : Any) (level : nat) (body : pystr) :
  render level o = Ok body -> forallb printable body = true.
Proof.
  revert level body.
  induction o as [ | b | n | f | s | t | d | d | items IH | items IH]
    using Any_induction; intros level body H; try discriminate.
  - injection H as <-. reflexivity.
  - destruct b; injection H as <-; reflexivity.
  - injection H as <-. apply printable_fmt_d.
  - injection H as <-. apply printable_floatstr.
  - injection H as <-. apply printable_basestring.
  - destruct items as [|x l]; [injection H as <-; reflexivity|].
    rewrite render_list_eq in H. inv_bind H. injection H as <-.
    apply printable_array_text.
    revert x0 E. generalize (S level). generalize (x :: l) IH. clear.
    intros l IH lv. induction IH as [|y l Hy Hl IHl]; intros chunks E; simpl in E.
    + injection E as <-. constructor.
    + inv_bind E. inv_bind E. injection E as <-. constructor; eauto.
  - destruct items as [|x l]; [injection H as <-; reflexivity|].
    rewrite render_dict_eq in H by discriminate. inv_bind H. injection H as <-.
    apply printable_object_text.
    revert x0 E. generalize (S level). generalize (x :: l) IH. clear.
    intros l IH lv. induction IH as [|[k y] l Hy Hl IHl]; intros members E; simpl in E.
    + injection E as <-. constructor.
    + inv_bind E. inv_bind E. injection E as <-. constructor; eauto.
Qed.

(** X17. The file [main] writes is plain text: every character of it is
    a printable ASCII character or a line feed, whatever characters the
    records, the region and the identifiers hold, and it ends with a line
    feed. *)
Theorem written_file_is_printable_ascii
        (a : args) (clock : datetime) (p : provider) (path data : pystr) :
  In (write_text path data) (fs_calls (main a clock p)) ->
  forallb printable data = true /\ exists body, data = body ++ [10%N].
Proof.
  intros Hin.
  destruct (fetch [] p) as [cat failure|e] eqn:Hf.
  - destruct (@main_write a clock p cat failure path data Hf Hin)
      as (body & Hbody & -> & _).
    split; [|eauto].
    unfold dumps in Hbody. rewrite encode_canonical in Hbody.
    rewrite forallb_app, (printable_render _ _ Hbody). reflexivity.
  - unfold main in Hin. rewrite Hf in Hin. destruct Hin.
Qed.

End Printable.

End Host.

(* ===================================================================== *)
(** * The laws at concrete inputs *)
(* ===================================================================== *)

Lemma dedup_sort_law_witness :
  records example_provider = Ok [t3_micro; m5_large] /\
  Forall2 (normalized_record host_utc) [t3_micro; m5_large]
          (normalized host_utc [t3_micro; m5_large]) /\
  exists instance_types,
    fetch host_utc [] example_provider = Fetched instance_types None /\
    keys (sorted_items instance_types) = [lit "m5.large"; lit "t3.micro"].
Proof.
  assert (H1 : records example_provider = Ok [t3_micro; m5_large]) by reflexivity.
  assert (H2 : Forall2 (normalized_record host_utc) [t3_micro; m5_large]
                       (normalized host_utc [t3_micro; m5_large])).
  { repeat apply Forall2_cons; try apply Forall2_nil;
      (split; [vm_compute; reflexivity | eexists; vm_compute; reflexivity]). }
  split; [exact H1|]. split; [exact H2|].
  destruct (@dedup_sort_law host_utc host_repr example_args example_clock
              example_provider _ _ H1 H2) as (cat & Hf & _).
  exists cat. split; [exact Hf|].
  vm_compute in Hf. injection Hf as <-. vm_compute. reflexivity.
Defined.

Lemma hard_failure_witness :
  allow_empty example_args = false /\
  exit_status (main host_utc host_repr example_args example_clock failing_provider) = 1 /\
  fs_calls (main host_utc host_repr example_args example_clock failing_provider) = [].
Proof.
  split; [reflexivity|].
  apply (@hard_failure_exits_1_without_writing host_utc host_repr
           example_args example_clock failing_provider).
  - reflexivity.
  - left. eexists. eexists. vm_compute. reflexivity.
Defined.



Lemma timestamp_law_witness :
  tz example_timestamp = Some 3600000000 /\
  representable (instant example_timestamp 3600000000) /\
  json_safe host_utc (PyDatetime example_timestamp)
  = Ok (PyStr (lit "2020-01-02T02:04:05.000007Z")).
Proof.
  assert (H1 : tz example_timestamp = Some 3600000000) by reflexivity.
  assert (H2 : representable (instant example_timestamp 3600000000)).
  { vm_compute. split; [intros H; discriminate H | reflexivity]. }
  split; [exact H1|]. split; [exact H2|].
  destruct (@timestamp_law host_utc example_timestamp 3600000000 H1 H2)
    as (u & Hu & _ & _ & _ & _ & Hj & _).
  rewrite Hj. vm_compute in Hu. injection Hu as <-. vm_compute. reflexivity.
Defined.

Lemma malformed_record_witness :
  json_safe host_utc nameless = Ok nameless /\
  add_item host_utc [] nameless = Ok [] /\
  add_items host_utc [] [t3_micro; nameless; m5_large]
  = add_items host_utc [] [t3_micro; m5_large].
Proof.
  assert (H1 : json_safe host_utc nameless = Ok (PyDict [(lit "InstanceType", PyInt 3)]))
    by reflexivity.
  assert (H2 : get [(lit "InstanceType", PyInt 3)] (lit "InstanceType") = None
               \/ get [(lit "InstanceType", PyInt 3)] (lit "InstanceType") = Some PyNone
               \/ (exists v, get [(lit "InstanceType", PyInt 3)] (lit "InstanceType") = Some v
                             /\ forall s, v <> PyStr s)
               \/ get [(lit "InstanceType", PyInt 3)] (lit "InstanceType") = Some (PyStr [])).
  { right. right. left. exists (PyInt 3). split; [reflexivity | discriminate]. }
  split; [exact H1|].
  destruct (@malformed_record_is_skipped host_utc [] nameless _ H1 H2) as (Hskip & Hsame).
  split; [exact Hskip|].
  exact (Hsame [t3_micro] [m5_large] []).
Defined.

Lemma persisted_document_witness :
  fetch host_utc [] example_provider
  = Fetched (catalog_of (fetch host_utc [] example_provider)) None /\
  In (write_text (output example_args)
                 (written (main host_utc host_repr example_args example_clock
                                example_provider)))
     (fs_calls (main host_utc host_repr example_args example_clock example_provider)) /\
  keys_sorted
    (canonical
       (payload (region example_args) example_clock
                (sorted_items (catalog_of (fetch host_utc [] example_provider))))).
Proof.
  assert (H1 : fetch host_utc [] example_provider
               = Fetched (catalog_of (fetch host_utc [] example_provider)) None)
    by (vm_compute; reflexivity).
  assert (H2 : In (write_text (output example_args)
                     (written (main host_utc host_repr example_args example_clock
                                    example_provider)))
                  (fs_calls (main host_utc host_repr example_args example_clock
                                  example_provider)))
    by (vm_compute; right; left; reflexivity).
  split; [exact H1|]. split; [exact H2|].
  destruct (@persisted_document_is_sorted_and_deterministic host_utc host_repr
              example_args example_clock example_provider _ _ _ _ H1 H2)
    as (_ & _ & _ & _ & _ & _ & _ & _ & body & _ & _ & _ & _ & Hsorted & _).
  exact Hsorted.
Defined.

Lemma empty_result_witness :
  fetch host_utc [] Exhausted = Fetched [] None /\
  allow_empty example_args_allow_empty = true /\
  exit_status (main host_utc host_repr example_args_allow_empty example_clock Exhausted) = 0.
Proof.
  split; [reflexivity|]. split; [reflexivity|].
  exact (proj1 (proj2 (@empty_result_with_allow_empty_succeeds host_utc host_repr
                         example_args_allow_empty example_clock Exhausted
                         eq_refl eq_refl))).
Defined.

(* ===================================================================== *)
(** * Where the laws as first stated fail *)
(* ===================================================================== *)


(** 0001-01-01T00:00:00+01:00 is a valid timezone-aware timestamp, and
    [json_safe] raises OverflowError instead of returning a string. *)
Lemma first_hour_east_raises :
  valid_datetime first_hour_east = true /\
  tz first_hour_east = Some 3600000000 /\
  json_safe host_utc (PyDatetime first_hour_east) = Raise OverflowError.
Proof. repeat split; vm_compute; reflexivity. Qed.

(** The identifier field of [dated] is a date, not a string; [json_safe]
    renders it, and the record enters the catalog under the rendering. *)
Lemma date_identifier_is_kept :
  (exists fields v,
      dated = PyDict fields /\
      get fields (lit "InstanceType") = Some v /\
      forall s, v <> PyStr s) /\
  add_item host_utc [] dated
  = Ok [ (lit "2020-01-01",
          PyDict [ (lit "InstanceType", PyStr (lit "2020-01-01")) ]) ].
Proof.
  split.
  - eexists. eexists. split; [reflexivity|]. split; [reflexivity | discriminate].
  - vm_compute. reflexivity.
Qed.

(* ===================================================================== *)
(** * The further laws at concrete inputs *)
(* ===================================================================== *)

Lemma json_safe_keeps_keys_witness :
  json_safe host_utc m5_large = Ok m5_large_normalized /\
  exists d, m5_large_normalized = PyDict d /\
            keys d = [lit "InstanceType"; lit "MemoryInfo"].
Proof.
  assert (H : json_safe host_utc m5_large = Ok m5_large_normalized)
    by (vm_compute; reflexivity).
  split; [exact H|].
  destruct (@json_safe_keeps_keys host_utc _ _ H) as (d & Hd & Hk & _).
  exists d. split; [exact Hd | exact Hk].
Defined.

Lemma json_safe_keeps_positions_witness :
  json_safe host_utc (PyList [t3_micro; m5_large])
  = Ok (PyList [t3_micro; m5_large_normalized]) /\
  exists l, PyList [t3_micro; m5_large_normalized] = PyList l /\
            List.length l = 2%nat.
Proof.
  assert (H : json_safe host_utc (PyList [t3_micro; m5_large])
              = Ok (PyList [t3_micro; m5_large_normalized]))
    by (vm_compute; reflexivity).
  split; [exact H|].
  destruct (@json_safe_keeps_positions host_utc _ _ H) as (l & Hl & Hn & _).
  exists l. split; [exact Hl | exact Hn].
Defined.




Lemma decimal_domain_witness :
  within_precision (DFinite true 45 (-1)) /\
  exists w, json_safe host_utc (PyDecimal (DFinite true 45 (-1))) = Ok w /\
            ((exists n, w = PyInt n) \/ (exists f, w = PyFloat f)).
Proof.
  assert (H : within_precision (DFinite true 45 (-1))) by (vm_compute; reflexivity).
  split; [exact H|].
  exact (proj2 (proj1 (@decimal_domain host_utc true 45 (-1))) H).
Defined.

Lemma int_from_decimal_bounded_witness :
  json_safe host_utc (PyDecimal (DFinite true 40 (-1))) = Ok (PyInt (-4)) /\
  Z.abs (-4) < 10 ^ 28.
Proof.
  assert (H : json_safe host_utc (PyDecimal (DFinite true 40 (-1))) = Ok (PyInt (-4)))
    by (vm_compute; reflexivity).
  split; [exact H|].
  exact (@int_from_decimal_bounded host_utc _ _ H).
Defined.

Lemma date_round_trip_witness :
  valid_date leap_day = true /\
  json_safe host_utc (PyDate leap_day) = Ok (PyStr (date_isoformat leap_day)) /\
  parse_date (date_isoformat leap_day) = Some leap_day.
Proof.
  assert (H : valid_date leap_day = true) by reflexivity.
  split; [exact H|].
  destruct (@date_round_trip host_utc leap_day H) as (Hj & _ & Hp & _).
  split; [exact Hj | exact Hp].
Defined.

Lemma catalog_invariant_witness :
  fetch host_utc [] example_provider
  = Fetched (catalog_of (fetch host_utc [] example_provider)) None /\
  distinct_keys (catalog_of (fetch host_utc [] example_provider)).
Proof.
  assert (H : fetch host_utc [] example_provider
              = Fetched (catalog_of (fetch host_utc [] example_provider)) None)
    by (vm_compute; reflexivity).
  split; [exact H|].
  exact (proj1 (@catalog_invariant host_utc _ _ _ H)).
Defined.

Lemma catalog_keys_witness :
  records example_provider = Ok [t3_micro; m5_large] /\
  fetch host_utc [] example_provider
  = Fetched (catalog_of (fetch host_utc [] example_provider)) None /\
  (List.length (catalog_of (fetch host_utc [] example_provider)) <= 2)%nat.
Proof.
  assert (H1 : records example_provider = Ok [t3_micro; m5_large]) by reflexivity.
  assert (H2 : fetch host_utc [] example_provider
               = Fetched (catalog_of (fetch host_utc [] example_provider)) None)
    by (vm_compute; reflexivity).
  split; [exact H1|]. split; [exact H2|].
  destruct (@catalog_keys_are_the_identifiers host_utc _ _ _ _ H1 H2)
    as (items & _ & _ & _ & Hlen).
  exact Hlen.
Defined.

Lemma page_boundaries_witness :
  records example_provider = Ok [t3_micro; m5_large] /\
  records one_page_provider = Ok [t3_micro; m5_large] /\
  outcome example_provider = outcome one_page_provider /\
  main host_utc host_repr example_args example_clock example_provider
  = main host_utc host_repr example_args example_clock one_page_provider.
Proof.
  assert (H1 : records example_provider = Ok [t3_micro; m5_large]) by reflexivity.
  assert (H2 : records one_page_provider = Ok [t3_micro; m5_large]) by reflexivity.
  assert (H3 : outcome example_provider = outcome one_page_provider) by reflexivity.
  split; [exact H1|]. split; [exact H2|]. split; [exact H3|].
  exact (proj2 (@page_boundaries_do_not_matter host_utc host_repr
                  example_args example_clock _ _ _ H1 H2 H3)).
Defined.

Lemma bad_record_witness :
  records scalar_record_provider = Ok ([t3_micro] ++ PyInt 3 :: []) /\
  add_items host_utc [] [t3_micro] = Ok [(lit "t3.micro", t3_micro)] /\
  json_safe host_utc (PyInt 3) = Ok (PyInt 3) /\
  main host_utc host_repr example_args_allow_empty example_clock scalar_record_provider
  = mkrun (Raised AttributeError) [] [].
Proof.
  assert (H1 : records scalar_record_provider = Ok ([t3_micro] ++ PyInt 3 :: []))
    by reflexivity.
  assert (H2 : add_items host_utc [] [t3_micro] = Ok [(lit "t3.micro", t3_micro)])
    by (vm_compute; reflexivity).
  assert (H3 : json_safe host_utc (PyInt 3) = Ok (PyInt 3)) by reflexivity.
  split; [exact H1|]. split; [exact H2|]. split; [exact H3|].
  refine (proj1 (@bad_record_aborts_run host_utc host_repr
                   example_args_allow_empty example_clock _ _ _ _ _ _ H1 H2 _)).
  right. exists (PyInt 3). split; [exact H3|]. split; [discriminate | reflexivity].
Defined.


Lemma generated_at_witness :
  valid_datetime example_clock = true /\
  lookup (payload (region example_args) example_clock []) ["generated_at"%string]
  = Some (PyStr (iso_local (now_utc example_clock) ++ lit "Z")) /\
  iso_local (now_utc example_clock) ++ lit "Z" = lit "2024-05-06T07:08:09Z".
Proof.
  assert (H : valid_datetime example_clock = true) by (vm_compute; reflexivity).
  split; [exact H|].
  split; [|vm_compute; reflexivity].
  exact (proj1 (@generated_at_is_the_utc_clock example_args example_clock [] H)).
Defined.

Lemma written_file_witness :
  (forall f, forallb printable (host_repr f) = true) /\
  In (write_text (output example_args)
                 (written (main host_utc host_repr example_args example_clock
                                example_provider)))
     (fs_calls (main host_utc host_repr example_args example_clock example_provider)) /\
  forallb printable
          (written (main host_utc host_repr example_args example_clock
                         example_provider)) = true.
Proof.
  assert (H1 : forall f, forallb printable (host_repr f) = true)
    by (intros f; reflexivity).
  assert (H2 : In (write_text (output example_args)
                     (written (main host_utc host_repr example_args example_clock
                                    example_provider)))
                  (fs_calls (main host_utc host_repr example_args example_clock
                                  example_provider)))
    by (vm_compute; right; left; reflexivity).
  split; [exact H1|]. split; [exact H2|].
  exact (proj1 (@written_file_is_printable_ascii host_utc host_repr H1
                  example_args example_clock example_provider _ _ H2)).
Defined.
